(** * Inventory and sync core of the library catalogue (src/script.js)

    A shallow embedding of the [LibrarySystem] class: the book and loan
    records, the CSV and spreadsheet imports, borrow/return/add/edit/delete,
    and the push/pull synchronisation with its debounce timer and cooldown.

    Conventions of the embedding.
    - A JavaScript string is the list of its UTF-16 code units.
    - A JavaScript number is an integer of [Z]: every number the modelled
      code handles is a count, a year or a millisecond clock reading (exact
      below 2^53).
    - [new Date().toISOString()] is kept as the instant it denotes
      (milliseconds since the epoch).  An ISO string is never empty, so the
      source's truthiness test [!b.returnedAt] is [returnedAt = None].
    - Mutation of an object found with [Array.prototype.find] is an update
      of the first matching element of the list.
    - DOM rendering and [localStorage] writes are left out: no modelled
      function reads them back. *)

From Stdlib Require Import ZArith NArith List Bool String Ascii Lia.
From Stdlib Require Import DecimalString DecimalPos.
Import ListNotations.

#[local] Open Scope Z_scope.

(** ** JavaScript strings *)

Definition jsstring := list N.

Definition lit (s : string) : jsstring :=
  List.map N_of_ascii (list_ascii_of_string s).

Definition str_eq_dec : forall a b : jsstring, {a = b} + {a <> b} :=
  list_eq_dec N.eq_dec.

(** [a === b] on two strings. *)
Definition str_eqb (a b : jsstring) : bool :=
  if str_eq_dec a b then true else false.

(** [arr.includes(s)] on an array of strings. *)
Definition includes (s : jsstring) (arr : list jsstring) : bool :=
  existsb (str_eqb s) arr.

(** ECMAScript WhiteSpace and LineTerminator code points, the set that
    [String.prototype.trim] strips (all of them lie in the BMP). *)
Definition isWhiteSpace (c : N) : bool :=
  ((9 <=? c) && (c <=? 13) || (c =? 32) || (c =? 160) || (c =? 5760)
   || (8192 <=? c) && (c <=? 8202) || (c =? 8232) || (c =? 8233)
   || (c =? 8239) || (c =? 8287) || (c =? 12288) || (c =? 65279))%N.

Fixpoint trimStart (s : jsstring) : jsstring :=
  match s with
  | c :: r => if isWhiteSpace c then trimStart r else s
  | [] => []
  end.

Definition trimEnd (s : jsstring) : jsstring := rev (trimStart (rev s)).

Definition trim (s : jsstring) : jsstring := trimEnd (trimStart s).

(** Truthiness of a string: only the empty string is falsy. *)
Definition nonEmpty (s : jsstring) : bool :=
  match s with [] => false | _ => true end.

(** [String(n)] for an integer [n], as used by [Date.now().toString()]. *)
Definition toString (n : Z) : jsstring :=
  lit (NilZero.string_of_int (Z.to_int n)).

(** *** The code pattern [/^[ABC]\d+$/]

    No [i] flag: the class [[ABC]] holds the three upper-case letters only;
    [\d] is an ASCII digit; [$] without the [m] flag is the end of input. *)
Definition isABC (c : N) : bool := ((c =? 65) || (c =? 66) || (c =? 67))%N.
Definition isDigit (c : N) : bool := ((48 <=? c) && (c <=? 57))%N.

Definition testBookId (id : jsstring) : bool :=
  match id with
  | c :: d :: ds => isABC c && forallb isDigit (d :: ds)
  | _ => false
  end.

(** *** [parseInt(s)] with no radix: [None] is [NaN]. *)
Definition digitValue (radix : N) (c : N) : option N :=
  let v := (if (48 <=? c) && (c <=? 57) then Some (c - 48)
            else if (97 <=? c) && (c <=? 122) then Some (c - 87)
            else if (65 <=? c) && (c <=? 90) then Some (c - 55)
            else None)%N in
  match v with
  | Some d => if (d <? radix)%N then Some d else None
  | None => None
  end.

Fixpoint parseDigits (radix : N) (acc : option N) (s : jsstring) : option N :=
  match s with
  | c :: r =>
      match digitValue radix c with
      | Some d =>
          parseDigits radix
            (Some (match acc with Some a => a * radix + d | None => d end)%N) r
      | None => acc
      end
  | [] => acc
  end.

Definition parseInt (s : jsstring) : option Z :=
  let s1 := trimStart s in
  let '(neg, s2) :=
    match s1 with
    | 45%N :: r => (true, r)
    | 43%N :: r => (false, r)
    | _ => (false, s1)
    end in
  let '(radix, s3) :=
    match s2 with
    | 48%N :: 120%N :: r => (16%N, r)
    | 48%N :: 88%N :: r => (16%N, r)
    | _ => (10%N, s2)
    end in
  match parseDigits radix None s3 with
  | Some n => Some (if neg then - Z.of_N n else Z.of_N n)
  | None => None
  end.

(** [parseInt(s) || d]: [NaN] and [0] are falsy. *)
Definition parseIntOr (s : jsstring) (d : Z) : Z :=
  match parseInt s with
  | Some n => if n =? 0 then d else n
  | None => d
  end.

(** ** Data model *)

(** The four genre strings '繪本', '橋梁書', '文字書', '未知'. *)
Inductive Genre := PictureBook | BridgeBook | TextBook | UnknownGenre.

(** [getGenreFromId]: [id.charAt(0).toUpperCase()] looked up in the genre
    map.  The only code units whose upper case is A, B or C are those
    letters and their lower-case forms. *)
Definition getGenreFromId (id : jsstring) : Genre :=
  match id with
  | c :: _ =>
      if ((c =? 65) || (c =? 97))%N then PictureBook
      else if ((c =? 66) || (c =? 98))%N then BridgeBook
      else if ((c =? 67) || (c =? 99))%N then TextBook
      else UnknownGenre
  | [] => UnknownGenre
  end.

Module Book.
(** [bookIds] is [None] on the records built by [handleAddBook] and
    [processImportData], which do not set the field. *)
Record t := mk {
  id : jsstring;
  bookIds : option (list jsstring);
  title : jsstring;
  genre : Genre;
  year : Z;
  copies : Z;
  availableCopies : Z
}.

Definition set_availableCopies (n : Z) (b : t) : t :=
  mk (id b) (bookIds b) (title b) (genre b) (year b) (copies b) n.
End Book.

Module Loan.
(** One element of [borrowedBooks]. *)
Record t := mk {
  id : jsstring;
  bookId : jsstring;
  bookTitle : jsstring;
  userId : jsstring;
  borrowDate : Z;
  dueDate : Z;
  returnedAt : option Z
}.

Definition set_returnedAt (r : option Z) (l : t) : t :=
  mk (id l) (bookId l) (bookTitle l) (userId l) (borrowDate l) (dueDate l) r.

(** [!b.returnedAt] *)
Definition isOpen (l : t) : bool :=
  match returnedAt l with None => true | Some _ => false end.
End Loan.

Record User := mkUser { username : jsstring; role : jsstring }.

Record Settings := mkSettings {
  loanDays : Z;
  guestBorrow : bool;
  defaultCopies : Z;
  defaultYear : Z;
  autoUpdateInterval : Z;
  googleWebAppUrl : jsstring
}.

(** The payload of a push request. *)
Inductive Request :=
| PushRequest (books : list Book.t) (borrowedBooks : list Loan.t)
| PullRequest.

(** The fields of [LibrarySystem] the core uses, followed by the two parts
    of the browser the class acts on: the table of pending [setTimeout]
    timers (identifier, due time) with the next free identifier, and the
    log of [fetch] requests sent so far (most recent first). *)
Record LibrarySystem := mkLib {
  books : list Book.t;
  borrowedBooks : list Loan.t;
  currentUser : option User;
  settings : Settings;
  autoSyncTimer : option positive;
  autoSyncLastRunAt : Z;
  autoSyncCooldownUntil : Z;
  timers : list (positive * Z);
  nextTimerId : positive;
  requests : list Request
}.

Definition set_books (bs : list Book.t) (s : LibrarySystem) : LibrarySystem :=
  mkLib bs (borrowedBooks s) (currentUser s) (settings s) (autoSyncTimer s)
    (autoSyncLastRunAt s) (autoSyncCooldownUntil s) (timers s)
    (nextTimerId s) (requests s).

Definition set_borrowedBooks (ls : list Loan.t) (s : LibrarySystem)
  : LibrarySystem :=
  mkLib (books s) ls (currentUser s) (settings s) (autoSyncTimer s)
    (autoSyncLastRunAt s) (autoSyncCooldownUntil s) (timers s)
    (nextTimerId s) (requests s).

Definition autoSyncMinIntervalMs : Z := 30000.
Definition autoSyncDebounceMs : Z := 1500.
Definition autoSyncBackoffMs : Z := 60000.
Definition adminUsername : jsstring := lit "sindy16872000".

(** Messages shown by [showToast], one constructor per message text. *)
Inductive Toast :=
| PleaseLogin            (* '請先登入' *)
| GuestCannotBorrow      (* '訪客無法借閱書籍' *)
| BookNotFound           (* '書籍不存在' *)
| NoCopiesAvailable      (* '此書籍已全部借出' *)
| AlreadyBorrowed        (* '您已借閱此書籍' *)
| BorrowSucceeded        (* '借閱成功！' *)
| LoanNotFound           (* '借閱記錄不存在' *)
| AlreadyReturned        (* '此書籍已歸還' *)
| ReturnSucceeded        (* '歸還成功！' *)
| AdminOnly              (* '...：僅限管理者帳號 ...' *)
| BadCodeFormat          (* '書碼首字母需為 A/B/C' *)
| DuplicateCode          (* '書碼已存在' *)
| MissingTitle           (* '請輸入書名' *)
| AddSucceeded           (* '書籍新增成功！' *)
| EditMissingCode        (* '編輯失敗：缺少書碼' *)
| CopiesBelowBorrowed (borrowedCount : Z) (* '冊數不得小於已借出數量 (n)' *)
| EditSucceeded          (* '書籍已更新' *)
| HasOpenLoans           (* '此書籍仍有未歸還借閱，無法刪除' *)
| DeleteSucceeded        (* '書籍已刪除' *)
| ImportSucceeded (n : Z)   (* '成功匯入 n 本書籍' *)
| ImportFailed (n : Z)      (* '有 n 筆資料匯入失敗' *)
| SyncUrlNotSet          (* '請先由管理者設定 Google Sheets 同步網址' *)
| SyncUrlNotFilled       (* '請先填入 Apps Script Web App URL' *)
| Uploading              (* '正在上傳到 Google Sheets...' *)
| UploadRejected         (* '上傳失敗，請檢查 Web App 權限/網址' *)
| UploadSucceeded        (* '上傳完成' *)
| UploadOddResponse      (* '上傳完成，但回應格式不符' *)
| UploadNetworkFailed    (* '上傳失敗，請檢查網路或 CORS 設定' *)
| Downloading            (* '正在從 Google Sheets 下載...' *)
| DownloadRejected       (* '下載失敗，請檢查 Web App 權限/網址' *)
| DownloadMalformed      (* '下載失敗：資料格式不正確' *)
| DownloadCancelled      (* '已取消下載覆蓋' *)
| DownloadSucceeded      (* '下載完成並已同步到本機' *)
| DownloadNetworkFailed. (* '下載失敗，請檢查網路或 CORS 設定' *)

(** ** Array helpers *)

(** [x = arr.find(p); x.field = ...]: the first match is changed in place. *)
Fixpoint updateFirst {A} (p : A -> bool) (f : A -> A) (l : list A) : list A :=
  match l with
  | [] => []
  | x :: r => if p x then f x :: r else x :: updateFirst p f r
  end.

(** [borrowedBooks.filter(b => b.bookId === id && !b.returnedAt).length] *)
Definition openLoansFor (id : jsstring) (ls : list Loan.t) : Z :=
  Z.of_nat (List.length
    (filter (fun b => str_eqb (Loan.bookId b) id && Loan.isOpen b) ls)).

(** ** Debounced scheduling of the automatic push *)

(** [clearTimeout(h)]: the timer leaves the table; an unknown identifier is
    ignored. *)
Definition clearTimeout (h : positive) (tm : list (positive * Z))
  : list (positive * Z) :=
  filter (fun t => negb (Pos.eqb (fst t) h)) tm.

(** [scheduleAutoSync()], called at clock reading [now].  The timer table
    holds the pending auto-sync timeouts; timer identifiers are positive
    integers, hence truthy. *)
Definition scheduleAutoSync (now : Z) (s : LibrarySystem) : LibrarySystem :=
  let tm := match autoSyncTimer s with
            | Some h => clearTimeout h (timers s)
            | None => timers s
            end in
  let h := nextTimerId s in
  mkLib (books s) (borrowedBooks s) (currentUser s) (settings s) (Some h)
    (autoSyncLastRunAt s) (autoSyncCooldownUntil s)
    (tm ++ [(h, now + autoSyncDebounceMs)]) (Pos.succ h) (requests s).

(** ** Loan ledger *)

Definition hasId (bookId : jsstring) (b : Book.t) : bool :=
  str_eqb (Book.id b) bookId.

Definition msPerDay : Z := 24 * 60 * 60 * 1000.

(** [borrowBook(bookId)].  [tDate], [tId] and [tTimer] are the three clock
    readings of the call, in program order: [new Date()], [Date.now()] and
    the arming of the debounce timer. *)
Definition borrowBook (bookId : jsstring) (tDate tId tTimer : Z)
    (s : LibrarySystem) : LibrarySystem * list Toast :=
  match currentUser s with
  | None => (s, [PleaseLogin])
  | Some u =>
      if str_eqb (role u) (lit "guest") && negb (guestBorrow (settings s))
      then (s, [GuestCannotBorrow])
      else
        match find (hasId bookId) (books s) with
        | None => (s, [BookNotFound])
        | Some book =>
            if Book.availableCopies book <=? 0 then (s, [NoCopiesAvailable])
            else if existsb
                      (fun b => str_eqb (Loan.bookId b) bookId
                                && str_eqb (Loan.userId b) (username u)
                                && Loan.isOpen b)
                      (borrowedBooks s)
            then (s, [AlreadyBorrowed])
            else
              let borrowRecord :=
                Loan.mk (toString tId) bookId (Book.title book) (username u)
                  tDate (tDate + loanDays (settings s) * msPerDay) None in
              let s1 :=
                set_borrowedBooks (borrowedBooks s ++ [borrowRecord]) s in
              let s2 :=
                set_books
                  (updateFirst (hasId bookId)
                     (fun b => Book.set_availableCopies
                                 (Book.availableCopies b - 1) b)
                     (books s1)) s1 in
              (scheduleAutoSync tTimer s2, [BorrowSucceeded])
        end
  end.

(** [returnBook(borrowId)], with the clock readings of [new Date()] and of
    the timer arming. *)
Definition returnBook (borrowId : jsstring) (tReturn tTimer : Z)
    (s : LibrarySystem) : LibrarySystem * list Toast :=
  match find (fun b => str_eqb (Loan.id b) borrowId) (borrowedBooks s) with
  | None => (s, [LoanNotFound])
  | Some borrowRecord =>
      if negb (Loan.isOpen borrowRecord) then (s, [AlreadyReturned])
      else
        let s1 :=
          set_borrowedBooks
            (updateFirst (fun b => str_eqb (Loan.id b) borrowId)
               (Loan.set_returnedAt (Some tReturn)) (borrowedBooks s)) s in
        let s2 :=
          set_books
            (updateFirst (hasId (Loan.bookId borrowRecord))
               (fun b => Book.set_availableCopies
                           (Book.availableCopies b + 1) b)
               (books s1)) s1 in
        (scheduleAutoSync tTimer s2, [ReturnSucceeded])
  end.

(** [availableCopies] of the record that [books.find(b => b.id === id)]
    returns. *)
Definition availableOf (bookId : jsstring) (bs : list Book.t) : option Z :=
  option_map Book.availableCopies (find (hasId bookId) bs).

(** An open loan of [user] on [bookId]. *)
Definition hasOpenLoan (bookId user : jsstring) (ls : list Loan.t) : Prop :=
  exists l, In l ls /\ Loan.bookId l = bookId /\ Loan.userId l = user
            /\ Loan.returnedAt l = None.

(** The same test as the source writes it, with [find]. *)
Definition hasOpenLoanb (bookId user : jsstring) (ls : list Loan.t) : bool :=
  existsb (fun b => str_eqb (Loan.bookId b) bookId
                    && str_eqb (Loan.userId b) user && Loan.isOpen b) ls.

(** The user passes the login and guest gates of [borrowBook]. *)
Definition mayBorrow (u : User) (s : LibrarySystem) : Prop :=
  currentUser s = Some u
  /\ str_eqb (role u) (lit "guest") && negb (guestBorrow (settings s)) = false.

(** ** CSV import *)

(** The entries of the [errors] array, by message and line number. *)
Inductive ImportError :=
| CodeFormatError (line : Z) (id : jsstring)   (* '第n行：書碼格式錯誤 (id)' *)
| CodeDuplicate (line : Z) (id : jsstring)     (* '第n行：書碼重複 (id)' *)
| TitleMissing (line : Z).                     (* '第n行：缺少書名' *)

(** The locals of the import loops.  [bookMap] is the [Map] from title to
    book record of [processCSVData], as the list of its entries in insertion
    order, which is the order [bookMap.values()] yields. *)
Record ImportAcc := mkAcc {
  bookMap : list (jsstring * Book.t);
  successCount : Z;
  errorCount : Z;
  errors : list ImportError
}.

Definition mapHas (title : jsstring) (m : list (jsstring * Book.t)) : bool :=
  existsb (fun e => str_eqb (fst e) title) m.

Definition mapGet (title : jsstring) (m : list (jsstring * Book.t))
  : option Book.t :=
  option_map snd (find (fun e => str_eqb (fst e) title) m).

(** Every record stored in [bookMap] is built with a [bookIds] array, so the
    [None] branches below are never taken. *)
Definition bookIdsOf (b : Book.t) : list jsstring :=
  match Book.bookIds b with Some l => l | None => [] end.

(** [existingBook.copies += copies; existingBook.availableCopies += copies;
    existingBook.bookIds.push(id)] *)
Definition mergeCopy (id : jsstring) (copies : Z) (b : Book.t) : Book.t :=
  Book.mk (Book.id b) (Some (bookIdsOf b ++ [id])) (Book.title b)
    (Book.genre b) (Book.year b) (Book.copies b + copies)
    (Book.availableCopies b + copies).

(** The copies of one CSV row: the literal [const copies = 1]. *)
Definition csvCopiesPerRow : Z := 1.

(** One iteration of the loop of [processCSVData], on row [i]. *)
Definition csvRow (st : Settings) (i : Z) (row : list jsstring)
    (acc : ImportAcc) : ImportAcc :=
  match row with
  | [] => acc
  | c0 :: _ =>
      if negb (nonEmpty c0) then acc
      else
        let id := trim c0 in
        let title := match nth_error row 1 with
                     | Some c1 => if nonEmpty c1 then trim c1 else []
                     | None => []
                     end in
        if negb (testBookId id) then
          mkAcc (bookMap acc) (successCount acc) (errorCount acc + 1)
            (errors acc ++ [CodeFormatError (i + 5) id])
        else if negb (nonEmpty title) then acc
        else if mapHas title (bookMap acc)
                && match mapGet title (bookMap acc) with
                   | Some b => includes id (bookIdsOf b)
                   | None => false
                   end
        then
          mkAcc (bookMap acc) (successCount acc) (errorCount acc + 1)
            (errors acc ++ [CodeDuplicate (i + 5) id])
        else
          let genre := getGenreFromId id in
          let year := defaultYear st in
          let copies := csvCopiesPerRow in
          let m :=
            if mapHas title (bookMap acc) then
              updateFirst (fun e => str_eqb (fst e) title)
                (fun e => (fst e, mergeCopy id copies (snd e))) (bookMap acc)
            else
              bookMap acc
                ++ [(title, Book.mk id (Some [id]) title genre year copies copies)]
          in
          mkAcc m (successCount acc + 1) (errorCount acc) (errors acc)
  end.

Fixpoint csvLoop (st : Settings) (i : Z) (rows : list (list jsstring))
    (acc : ImportAcc) : ImportAcc :=
  match rows with
  | [] => acc
  | row :: rest => csvLoop st (i + 1) rest (csvRow st i row acc)
  end.

(** [processCSVData(csvData)]: the catalogue is emptied and rebuilt from the
    rows; [borrowedBooks] is not touched.  The counters and the error list
    only reach the console; they are returned here beside the new state. *)
Definition processCSVData (csvData : list (list jsstring)) (s : LibrarySystem)
  : LibrarySystem * ImportAcc :=
  let acc := csvLoop (settings s) 0 csvData (mkAcc [] 0 0 []) in
  (set_books ([] ++ List.map snd (bookMap acc)) s, acc).

(** ** Spreadsheet import *)

(** A cell of the sheet as [XLSX.utils.sheet_to_json(_, {header: 1})] gives
    it: a string, a number (an integer below 10^21 in magnitude, so that
    [String(n)] is its decimal form) or nothing. *)
Inductive Cell := CStr (s : jsstring) | CNum (n : Z) | CEmpty.

Definition cellAt (row : list Cell) (k : nat) : Cell :=
  nth k row CEmpty.

(** Truthiness of a cell. *)
Definition cellTruthy (c : Cell) : bool :=
  match c with
  | CStr s => nonEmpty s
  | CNum n => negb (n =? 0)
  | CEmpty => false
  end.

(** [c.toString()] on a truthy cell. *)
Definition cellToString (c : Cell) : jsstring :=
  match c with
  | CStr s => s
  | CNum n => toString n
  | CEmpty => []
  end.

(** One iteration of the loop of [processImportData], on row [i].  The
    duplicate test is [this.books.find(book => book.id === id)]. *)
Definition importRow (st : Settings) (i : Z) (row : list Cell)
    (state : list Book.t * ImportAcc) : list Book.t * ImportAcc :=
  let '(bs, acc) := state in
  if negb (cellTruthy (cellAt row 0)) then state
  else
    let id := trim (cellToString (cellAt row 0)) in
    let title := if cellTruthy (cellAt row 1)
                 then trim (cellToString (cellAt row 1)) else [] in
    let copies : option Z :=
      if cellTruthy (cellAt row 2)
      then parseInt (cellToString (cellAt row 2))
      else Some (defaultCopies st) in
    if negb (testBookId id) then
      (bs, mkAcc (bookMap acc) (successCount acc) (errorCount acc + 1)
             (errors acc ++ [CodeFormatError (i + 1) id]))
    else if existsb (hasId id) bs then
      (bs, mkAcc (bookMap acc) (successCount acc) (errorCount acc + 1)
             (errors acc ++ [CodeDuplicate (i + 1) id]))
    else if negb (nonEmpty title) then
      (bs, mkAcc (bookMap acc) (successCount acc) (errorCount acc + 1)
             (errors acc ++ [TitleMissing (i + 1)]))
    else
      let n := match copies with
               | Some c => if c =? 0 then defaultCopies st else c
               | None => defaultCopies st
               end in
      let newBook :=
        Book.mk id None title (getGenreFromId id) (defaultYear st) n n in
      (bs ++ [newBook],
       mkAcc (bookMap acc) (successCount acc + 1) (errorCount acc) (errors acc)).

Fixpoint importLoop (st : Settings) (i : Z) (rows : list (list Cell))
    (state : list Book.t * ImportAcc) : list Book.t * ImportAcc :=
  match rows with
  | [] => state
  | row :: rest => importLoop st (i + 1) rest (importRow st i row state)
  end.

(** [processImportData(data)]: the loop starts at [i = 1], after the header
    row. *)
Definition processImportData (data : list (list Cell)) (s : LibrarySystem)
  : LibrarySystem * ImportAcc * list Toast :=
  let '(bs, acc) :=
    importLoop (settings s) 1 (tl data) (books s, mkAcc [] 0 0 []) in
  (set_books bs s, acc,
   (if 0 <? successCount acc then [ImportSucceeded (successCount acc)] else [])
   ++ (if 0 <? errorCount acc then [ImportFailed (errorCount acc)] else [])).

(** ** Catalogue edits *)

(** [isAdminUser()] *)
Definition isAdminUser (s : LibrarySystem) : bool :=
  match currentUser s with
  | Some u => str_eqb (username u) adminUsername
  | None => false
  end.

(** [handleAddBook(e)].  The four strings are the values of the form fields
    [book-id], [book-title], [book-year] and [book-copies]. *)
Definition handleAddBook (idValue titleValue yearValue copiesValue : jsstring)
    (tTimer : Z) (s : LibrarySystem) : LibrarySystem * list Toast :=
  let id := trim idValue in
  let title := trim titleValue in
  let year := parseIntOr yearValue (defaultYear (settings s)) in
  let copies := parseIntOr copiesValue (defaultCopies (settings s)) in
  if negb (testBookId id) then (s, [BadCodeFormat])
  else if existsb (hasId id) (books s) then (s, [DuplicateCode])
  else if negb (nonEmpty title) then (s, [MissingTitle])
  else
    let newBook :=
      Book.mk id None title (getGenreFromId id) year copies copies in
    (scheduleAutoSync tTimer (set_books (books s ++ [newBook]) s),
     [AddSucceeded]).

(** The assignments of [handleEditBook] to the record found; [unshift] puts
    the record's own code in front of [bookIds] when the array lacks it. *)
Definition editRecord (title : jsstring) (year newCopies borrowedCount : Z)
    (b : Book.t) : Book.t :=
  Book.mk (Book.id b)
    (match Book.bookIds b with
     | Some l => if includes (Book.id b) l then Some l
                 else Some (Book.id b :: l)
     | None => None
     end)
    title (Book.genre b) year newCopies (newCopies - borrowedCount).

(** [handleEditBook(e)], on the values of the fields of the edit form. *)
Definition handleEditBook
    (originalIdValue titleValue yearValue copiesValue : jsstring)
    (s : LibrarySystem) : LibrarySystem * list Toast :=
  if negb (isAdminUser s) then (s, [AdminOnly])
  else
    let originalId := trim originalIdValue in
    let title := trim titleValue in
    let year := parseIntOr yearValue (defaultYear (settings s)) in
    let newCopies := parseIntOr copiesValue 1 in
    if negb (nonEmpty originalId) then (s, [EditMissingCode])
    else if negb (nonEmpty title) then (s, [MissingTitle])
    else
      match find (hasId originalId) (books s) with
      | None => (s, [BookNotFound])
      | Some _ =>
          let borrowedCount := openLoansFor originalId (borrowedBooks s) in
          if newCopies <? borrowedCount
          then (s, [CopiesBelowBorrowed borrowedCount])
          else
            (set_books
               (updateFirst (hasId originalId)
                  (editRecord title year newCopies borrowedCount) (books s)) s,
             [EditSucceeded])
      end.

(** [deleteBook(bookId)]; [confirmed] is the answer to the [confirm]
    dialog. *)
Definition deleteBook (bookId : jsstring) (confirmed : bool)
    (s : LibrarySystem) : LibrarySystem * list Toast :=
  if negb (isAdminUser s) then (s, [AdminOnly])
  else
    match find (hasId bookId) (books s) with
    | None => (s, [BookNotFound])
    | Some _ =>
        if 0 <? openLoansFor bookId (borrowedBooks s) then (s, [HasOpenLoans])
        else if negb confirmed then (s, [])
        else
          (set_books (filter (fun b => negb (hasId bookId b)) (books s)) s,
           [DeleteSucceeded])
    end.

(** ** Synchronisation with the remote sheet *)

(** [getGoogleWebAppUrl()]: [None] is [null]. *)
Definition getGoogleWebAppUrl (s : LibrarySystem) : option jsstring :=
  match trim (googleWebAppUrl (settings s)) with
  | [] => None
  | url => Some url
  end.

(** What the response to a pull carries: [result.ok] and [result.data];
    a field of [data] that is not an array is [None]. *)
Record PullData := mkPullData {
  dataBooks : option (list Book.t);
  dataBorrowedBooks : option (list Loan.t)
}.

Record Body := mkBody {
  bodyOk : bool;
  bodyData : option PullData
}.

(** The outcome of [fetch] followed by [response.json().catch(() => null)]:
    the promise rejects, or a response arrives with its [response.ok] flag
    (a 2xx status) and its parsed body, [None] when the body is no JSON
    object. *)
Inductive FetchResult :=
| FetchRejected
| FetchResponse (ok : bool) (result : option Body).

Definition add_request (r : Request) (s : LibrarySystem) : LibrarySystem :=
  mkLib (books s) (borrowedBooks s) (currentUser s) (settings s)
    (autoSyncTimer s) (autoSyncLastRunAt s) (autoSyncCooldownUntil s)
    (timers s) (nextTimerId s) (r :: requests s).

Definition set_autoSyncLastRunAt (t : Z) (s : LibrarySystem) : LibrarySystem :=
  mkLib (books s) (borrowedBooks s) (currentUser s) (settings s)
    (autoSyncTimer s) t (autoSyncCooldownUntil s)
    (timers s) (nextTimerId s) (requests s).

Definition set_autoSyncCooldownUntil (t : Z) (s : LibrarySystem)
  : LibrarySystem :=
  mkLib (books s) (borrowedBooks s) (currentUser s) (settings s)
    (autoSyncTimer s) (autoSyncLastRunAt s) t
    (timers s) (nextTimerId s) (requests s).

Definition set_googleWebAppUrl (url : jsstring) (s : LibrarySystem)
  : LibrarySystem :=
  let st := settings s in
  mkLib (books s) (borrowedBooks s) (currentUser s)
    (mkSettings (loanDays st) (guestBorrow st) (defaultCopies st)
       (defaultYear st) (autoUpdateInterval st) url)
    (autoSyncTimer s) (autoSyncLastRunAt s) (autoSyncCooldownUntil s)
    (timers s) (nextTimerId s) (requests s).

(** How a call of an [async] function ends: it returns or it throws. *)
Inductive Completion := Returned | Threw.

(** [pushToGoogleSheets({silent})], with the outcome [res] of its [fetch].
    The request carries the collections as they are when it is sent;
    nothing after the [await] writes to the state. *)
Definition pushToGoogleSheets (silent : bool) (res : FetchResult)
    (s : LibrarySystem) : LibrarySystem * list Toast * Completion :=
  let say (t : Toast) := if silent then [] else [t] in
  match getGoogleWebAppUrl s with
  | None => (s, say SyncUrlNotSet, Returned)
  | Some _ =>
      let s1 := add_request (PushRequest (books s) (borrowedBooks s)) s in
      match res with
      | FetchRejected =>
          (s1, say Uploading ++ say UploadNetworkFailed, Threw)
      | FetchResponse ok result =>
          if negb ok then (s1, say Uploading ++ say UploadRejected, Returned)
          else
            match result with
            | Some body =>
                if bodyOk body
                then (s1, say Uploading ++ say UploadSucceeded, Returned)
                else (s1, say Uploading ++ say UploadOddResponse, Returned)
            | None => (s1, say Uploading ++ say UploadOddResponse, Returned)
            end
      end
  end.

(** [autoPushToGoogleSheets()].  [now] is the reading of [Date.now()] at
    entry, [res] the outcome of the fetch and [tCatch] the reading of
    [Date.now()] in the [catch] block. *)
Definition autoPushToGoogleSheets (now : Z) (res : FetchResult) (tCatch : Z)
    (s : LibrarySystem) : LibrarySystem :=
  match getGoogleWebAppUrl s with
  | None => s
  | Some _ =>
      if now <? autoSyncCooldownUntil s then s
      else if now - autoSyncLastRunAt s <? autoSyncMinIntervalMs then s
      else
        let s1 := set_autoSyncLastRunAt now s in
        match pushToGoogleSheets true res s1 with
        | (s2, _, Returned) => s2
        | (s2, _, Threw) =>
            set_autoSyncCooldownUntil (tCatch + autoSyncBackoffMs) s2
        end
  end.

(** The callback armed by [scheduleAutoSync]. *)
Definition autoSyncCallback (now : Z) (res : FetchResult) (tCatch : Z)
    (s : LibrarySystem) : LibrarySystem :=
  autoPushToGoogleSheets now res tCatch
    (mkLib (books s) (borrowedBooks s) (currentUser s) (settings s) None
       (autoSyncLastRunAt s) (autoSyncCooldownUntil s) (timers s)
       (nextTimerId s) (requests s)).

(** One turn of the browser's timer loop at time [now]: a timer of the
    table that is due leaves the table and its callback runs.  A timer
    never fires before its due time. *)
Definition fireTimer (h : positive) (now : Z) (res : FetchResult) (tCatch : Z)
    (s : LibrarySystem) : option LibrarySystem :=
  match find (fun t => Pos.eqb (fst t) h) (timers s) with
  | Some (_, due) =>
      if due <=? now then
        Some (autoSyncCallback now res tCatch
                (mkLib (books s) (borrowedBooks s) (currentUser s)
                   (settings s) (autoSyncTimer s) (autoSyncLastRunAt s)
                   (autoSyncCooldownUntil s) (clearTimeout h (timers s))
                   (nextTimerId s) (requests s)))
      else None
  | None => None
  end.

(** What happens to the page after a burst of calls: timers fire, each with
    its own time and fetch outcome.  A firing that is not possible (no such
    timer, or not yet due) leaves the state as it is. *)
Record Firing := mkFiring {
  firedTimer : positive;
  firedAt : Z;
  fetchOutcome : FetchResult;
  caughtAt : Z
}.

Fixpoint runFirings (fs : list Firing) (s : LibrarySystem) : LibrarySystem :=
  match fs with
  | [] => s
  | f :: rest =>
      runFirings rest
        (match fireTimer (firedTimer f) (firedAt f) (fetchOutcome f)
                 (caughtAt f) s with
         | Some s' => s'
         | None => s
         end)
  end.

(** The number of push requests sent so far. *)
Definition pushCount (s : LibrarySystem) : nat :=
  List.length
    (filter (fun r => match r with PushRequest _ _ => true | _ => false end)
       (requests s)).

(** The options of [pullFromGoogleSheets]. *)
Record PullOptions := mkPullOptions {
  silent : bool;
  protectEmpty : bool;
  closeModal : bool
}.

(** The defaults of the destructuring [{ silent = false, protectEmpty = false,
    closeModal = true }]. *)
Definition defaultPullOptions : PullOptions := mkPullOptions false false true.

(** The options of the two automatic pulls, [startAutoPull] and
    [autoUpdateBooks]. *)
Definition autoPullOptions : PullOptions := mkPullOptions true true false.

(** [getGoogleWebAppUrlFromUI()], on the value of the URL field. *)
Definition getGoogleWebAppUrlFromUI (uiValue : jsstring) (s : LibrarySystem)
  : LibrarySystem * list Toast * option jsstring :=
  match trim uiValue with
  | [] => (s, [SyncUrlNotFilled], None)
  | url => (set_googleWebAppUrl url s, [], Some url)
  end.

(** The part of [pullFromGoogleSheets] after the two [await]s, run on the
    state as it is when the response arrives.  [confirmed] is the answer to
    the [confirm] dialog, when it is shown. *)
Definition applyPull (opts : PullOptions) (res : FetchResult)
    (confirmed : bool) (s : LibrarySystem) : LibrarySystem * list Toast :=
  let say (t : Toast) := if silent opts then [] else [t] in
  match res with
  | FetchRejected => (s, say DownloadNetworkFailed)
  | FetchResponse ok result =>
      match (if ok then result else None) with
      | None => (s, say DownloadRejected)
      | Some body =>
          if negb (bodyOk body) then (s, say DownloadRejected)
          else
            let data := match bodyData body with
                        | Some d => d
                        | None => mkPullData None None
                        end in
            match dataBooks data, dataBorrowedBooks data with
            | Some newBooks, Some newLoans =>
                let wouldEmpty :=
                  (Nat.eqb (List.length newBooks) 0)
                  && (Nat.ltb 0 (List.length (books s))) in
                if protectEmpty opts && wouldEmpty then (s, [])
                else if wouldEmpty && negb confirmed
                then (s, say DownloadCancelled)
                else
                  (set_borrowedBooks newLoans (set_books newBooks s),
                   say DownloadSucceeded)
            | _, _ => (s, say DownloadMalformed)
            end
      end
  end.

(** [pullFromGoogleSheets(options)]: the URL is read, the request is sent
    and the response is applied. *)
Definition pullFromGoogleSheets (opts : PullOptions) (uiValue : jsstring)
    (res : FetchResult) (confirmed : bool) (s : LibrarySystem)
  : LibrarySystem * list Toast :=
  let '(s0, t0, url) :=
    if silent opts then (s, [], getGoogleWebAppUrl s)
    else getGoogleWebAppUrlFromUI uiValue s in
  match url with
  | None => (s0, t0)
  | Some _ =>
      let say (t : Toast) := if silent opts then [] else [t] in
      let '(s1, t1) := applyPull opts res confirmed (add_request PullRequest s0) in
      (s1, t0 ++ say Downloading ++ t1)
  end.

(** [autoUpdateBooks()] and the callback of [startAutoPull]: a pull with
    the automatic options; a silent pull does not read the URL field. *)
Definition autoPull (res : FetchResult) (confirmed : bool)
    (s : LibrarySystem) : LibrarySystem :=
  fst (pullFromGoogleSheets autoPullOptions [] res confirmed s).

(** ** Example states *)

Definition defaultSettings : Settings :=
  mkSettings 14 false 1 2024 300000 (lit "https://example.org/exec").

Definition alice : User := mkUser (lit "alice") (lit "student").
Definition bob : User := mkUser (lit "bob") (lit "student").
Definition carol : User := mkUser (lit "carol") (lit "student").
Definition admin : User := mkUser adminUsername (lit "staff").

Definition bookT (copies available : Z) : Book.t :=
  Book.mk (lit "A0001") None (lit "T") PictureBook 2024 copies available.

(** A state with catalogue [bs], ledger [ls] and user [u]; no timer is
    pending and nothing was sent. *)
Definition stateOf (bs : list Book.t) (ls : list Loan.t) (u : User)
  : LibrarySystem :=
  mkLib bs ls (Some u) defaultSettings None 0 0 [] 1%positive [].

Definition asUser (u : User) (s : LibrarySystem) : LibrarySystem :=
  mkLib (books s) (borrowedBooks s) (Some u) (settings s) (autoSyncTimer s)
    (autoSyncLastRunAt s) (autoSyncCooldownUntil s) (timers s)
    (nextTimerId s) (requests s).

(** The end-to-end run: a catalogue with two copies of A0001; alice
    borrows, then bob. *)
Definition catalogue2 : LibrarySystem := stateOf [bookT 2 2] [] alice.

Definition afterAlice : LibrarySystem :=
  fst (borrowBook (lit "A0001") 1000 1000 1000 catalogue2).

Definition afterBob : LibrarySystem :=
  fst (borrowBook (lit "A0001") 2000 2000 2000 (asUser bob afterAlice)).

(** Alice borrows and returns A0001 while the clock reads 1000. *)
Definition afterBorrowReturn : LibrarySystem :=
  fst (returnBook (toString 1000) 1000 1000 afterAlice).





(** The catalogue that the CSV import builds from two copies of one title:
    one record with id A0001 and [bookIds = [A0001; A0002]]. *)
Definition mergedCatalogue : LibrarySystem :=
  fst (processCSVData [[lit "A0001"; lit "T"]; [lit "A0002"; lit "T"]]
         (stateOf [] [] admin)).

(** A sheet with a header row and one data row, whose code is A0002. *)
Definition sheetA0002 : list (list Cell) :=
  [[CStr (lit "code"); CStr (lit "title")];
   [CStr (lit "A0002"); CStr (lit "X")]].

(** The timer table agrees with the [autoSyncTimer] field: it holds the
    timer the field names, and nothing else.  The initial state (no timer,
    empty table) is such a state, and [scheduleAutoSync] and the firing of
    a timer keep it so. *)
Definition wfTimers (s : LibrarySystem) : Prop :=
  match autoSyncTimer s with
  | None => timers s = []
  | Some h => exists due, timers s = [(h, due)]
  end.

(** A successful response to a pull with no book and no loan. *)
Definition emptyPullBody : Body :=
  mkBody true (Some (mkPullData (Some []) (Some []))).

(** ** The copies invariant *)

(** Every record has [0 <= availableCopies <= copies], and its available
    copies are its copies minus the open loans on its id. *)
Definition copiesHold (bs : list Book.t) (ls : list Loan.t) : Prop :=
  forall b, In b bs ->
    0 <= Book.availableCopies b <= Book.copies b
    /\ Book.availableCopies b = Book.copies b - openLoansFor (Book.id b) ls.

Definition copiesInvariant (s : LibrarySystem) : Prop :=
  copiesHold (books s) (borrowedBooks s).

Definition copiesInvariantb (s : LibrarySystem) : bool :=
  forallb
    (fun b =>
       (0 <=? Book.availableCopies b)
       && (Book.availableCopies b <=? Book.copies b)
       && (Book.availableCopies b
           =? Book.copies b - openLoansFor (Book.id b) (borrowedBooks s)))
    (books s).

(** The invariant together with what its preservation rests on: the ids
    of the catalogue are distinct, and every open loan is on the id of a
    record of the catalogue. *)
Definition ledgerHolds (bs : list Book.t) (ls : list Loan.t) : Prop :=
  NoDup (List.map Book.id bs)
  /\ copiesHold bs ls
  /\ (forall l, In l ls -> Loan.returnedAt l = None ->
        In (Loan.bookId l) (List.map Book.id bs)).

Definition stateInvariant (s : LibrarySystem) : Prop :=
  ledgerHolds (books s) (borrowedBooks s).

(** The local operations on the catalogue and the ledger. *)
Inductive LocalOp :=
| Borrow (bookId : jsstring) (tDate tId tTimer : Z)
| Return (borrowId : jsstring) (tReturn tTimer : Z)
| AddBook (idValue titleValue yearValue copiesValue : jsstring) (tTimer : Z)
| EditBook (originalIdValue titleValue yearValue copiesValue : jsstring)
| DeleteBook (bookId : jsstring) (confirmed : bool)
| ImportCSV (csvData : list (list jsstring)).

Definition runOp (op : LocalOp) (s : LibrarySystem) : LibrarySystem :=
  match op with
  | Borrow bookId tDate tId tTimer => fst (borrowBook bookId tDate tId tTimer s)
  | Return borrowId tReturn tTimer => fst (returnBook borrowId tReturn tTimer s)
  | AddBook i t y c tTimer => fst (handleAddBook i t y c tTimer s)
  | EditBook i t y c => fst (handleEditBook i t y c s)
  | DeleteBook bookId confirmed => fst (deleteBook bookId confirmed s)
  | ImportCSV csvData => fst (processCSVData csvData s)
  end.

Definition runOps (ops : list LocalOp) (s : LibrarySystem) : LibrarySystem :=
  fold_left (fun st op => runOp op st) ops s.

(** The operations that keep [stateInvariant]: all but the CSV import, and
    the add form only with a copies value that is not negative. *)
Definition keepsInvariant (op : LocalOp) (s : LibrarySystem) : Prop :=
  match op with
  | ImportCSV _ => False
  | AddBook _ _ _ c _ => 0 <= parseIntOr c (defaultCopies (settings s))
  | _ => True
  end.

(** Alice borrows the only copy of A0001, the CSV file is imported again,
    and she returns the copy. *)
Definition oneCopyCsv : list (list jsstring) := [[lit "A0001"; lit "T"]].

Definition reimportOps : list LocalOp :=
  [ImportCSV oneCopyCsv;
   Borrow (lit "A0001") 1000 1000 1000;
   ImportCSV oneCopyCsv].

Definition reimportReturnOps : list LocalOp :=
  reimportOps ++ [Return (toString 1000) 2000 2000].

(** ** Statistics and the book card *)

(** The four numbers that [updateStats] writes to the page. *)
Record Stats := mkStats {
  totalBooks : Z;
  uniqueTitles : Z;
  availableBooks : Z;
  borrowedBooksCount : Z
}.

Definition updateStats (s : LibrarySystem) : Stats :=
  mkStats
    (fold_left (fun sum book => sum + Book.copies book) (books s) 0)
    (Z.of_nat (List.length (books s)))
    (fold_left (fun sum book => sum + Book.availableCopies book) (books s) 0)
    (Z.of_nat (List.length (filter Loan.isOpen (borrowedBooks s)))).

(** [canBorrow] and [isBorrowed] of [createBookCard]; the borrow button is
    enabled when [canBorrow && !isBorrowed].  Without a user,
    [this.currentUser?.username] is [undefined] and equals no [userId]. *)
Definition canBorrow (book : Book.t) (s : LibrarySystem) : bool :=
  match currentUser s with
  | None => false
  | Some u =>
      (negb (str_eqb (role u) (lit "guest")) || guestBorrow (settings s))
      && (0 <? Book.availableCopies book)
  end.

Definition isBorrowed (book : Book.t) (s : LibrarySystem) : bool :=
  existsb
    (fun b => str_eqb (Loan.bookId b) (Book.id book)
              && match currentUser s with
                 | Some u => str_eqb (Loan.userId b) (username u)
                 | None => false
                 end
              && Loan.isOpen b)
    (borrowedBooks s).

Definition borrowButtonEnabled (book : Book.t) (s : LibrarySystem) : bool :=
  canBorrow book s && negb (isBorrowed book s).

(** The records that [renderBorrowedBooks] lists and [exportBorrowedToExcel]
    exports: all open loans for the role 'staff', the user's own open loans
    otherwise; [None] when nobody is logged in. *)
Definition visibleLoans (s : LibrarySystem) : option (list Loan.t) :=
  match currentUser s with
  | None => None
  | Some u =>
      if str_eqb (role u) (lit "staff")
      then Some (filter Loan.isOpen (borrowedBooks s))
      else Some (filter
                   (fun b => str_eqb (Loan.userId b) (username u)
                             && Loan.isOpen b)
                   (borrowedBooks s))
  end.

(** The number of open loans of [user] on [bookId]. *)
Definition openLoansOf (bookId user : jsstring) (ls : list Loan.t) : nat :=
  List.length
    (filter (fun b => str_eqb (Loan.bookId b) bookId
                      && str_eqb (Loan.userId b) user && Loan.isOpen b) ls).

(** No user holds two open loans on one code. *)
Definition oneOpenLoanPerUser (ls : list Loan.t) : Prop :=
  forall bookId user, (openLoansOf bookId user ls <= 1)%nat.

(** The sum of a list of numbers, for stating facts about the [reduce]
    calls of [updateStats]. *)
Definition sumZ (l : list Z) : Z := fold_right Z.add 0 l.

(** ** Shape of imported records *)

(** What [processImportData] builds for a row: a valid code, a title that
    is not empty, all copies available, the default year, the genre of the
    code, and no [bookIds] field. *)
Definition sheetRecord (st : Settings) (b : Book.t) : Prop :=
  testBookId (Book.id b) = true
  /\ Book.title b <> []
  /\ Book.availableCopies b = Book.copies b
  /\ Book.year b = defaultYear st
  /\ Book.genre b = getGenreFromId (Book.id b)
  /\ Book.bookIds b = None.

(** What [processCSVData] builds for a title: [bookIds] starts with the id
    and lists valid codes without repetition, one per copy, and all copies
    are available. *)
Definition csvRecord (st : Settings) (b : Book.t) : Prop :=
  Book.title b <> []
  /\ exists others,
       Book.bookIds b = Some (Book.id b :: others)
       /\ Forall (fun c => testBookId c = true) (Book.id b :: others)
       /\ NoDup (Book.id b :: others)
       /\ Book.copies b = Z.of_nat (List.length (Book.id b :: others))
       /\ Book.availableCopies b = Book.copies b
       /\ Book.year b = defaultYear st
       /\ Book.genre b = getGenreFromId (Book.id b).

(** The import map is keyed by the title of each record, without
    repetition, and holds CSV records only. *)
Definition csvMapOk (st : Settings) (m : list (jsstring * Book.t)) : Prop :=
  NoDup (List.map fst m)
  /\ Forall (fun e => Book.title (snd e) = fst e /\ csvRecord st (snd e)) m.

(** ** Runs of the page *)

(** What can happen on the page as far as the timer table is concerned: a
    local operation, a direct call of [scheduleAutoSync], or the firing of
    a timer. *)
Inductive PageEvent :=
| DoOp (op : LocalOp)
| DoSchedule (now : Z)
| DoFire (f : Firing).

Definition runEvent (e : PageEvent) (s : LibrarySystem) : LibrarySystem :=
  match e with
  | DoOp op => runOp op s
  | DoSchedule now => scheduleAutoSync now s
  | DoFire f => runFirings [f] s
  end.

Definition runEvents (es : list PageEvent) (s : LibrarySystem)
  : LibrarySystem :=
  fold_left (fun st e => runEvent e st) es s.

(** ** Reading the CSV text *)

(** [s.split(sep)] for a one-character separator: the pieces between the
    occurrences of [sep], of which there is always at least one. *)
Fixpoint splitOn (sep : N) (s : jsstring) : list jsstring :=
  match s with
  | [] => [[]]
  | c :: r =>
      if (c =? sep)%N then [] :: splitOn sep r
      else match splitOn sep r with
           | piece :: pieces => (c :: piece) :: pieces
           | [] => [[c]]
           end
  end.

(** [pieces.join(sep)] *)
Fixpoint joinWith (sep : N) (pieces : list jsstring) : jsstring :=
  match pieces with
  | [] => []
  | [p] => p
  | p :: rest => p ++ sep :: joinWith sep rest
  end.

Definition newline : N := 10.
Definition comma : N := 44.

(** The body of the loop of [parseCSV] on line [i]: the rows it pushes. *)
Definition parseLine (i : nat) (rawLine : jsstring) : list (list jsstring) :=
  let line := trim rawLine in
  if negb (nonEmpty line) then []
  else if Nat.ltb i 4 then []
  else
    let columns := splitOn comma line in
    if Nat.leb 2 (List.length columns) && nonEmpty (hd [] columns)
    then [columns] else [].

Fixpoint parseLines (i : nat) (lines : list jsstring)
  : list (list jsstring) :=
  match lines with
  | [] => []
  | l :: rest => parseLine i l ++ parseLines (S i) rest
  end.

(** [parseCSV(csvText)] *)
Definition parseCSV (csvText : jsstring) : list (list jsstring) :=
  parseLines 0 (splitOn newline csvText).

(** [autoLoadCSV()]: [response] is the text of the CSV file, or [None]
    when the fetch fails or answers with a status outside 2xx. *)
Definition autoLoadCSV (response : option jsstring) (s : LibrarySystem)
  : LibrarySystem :=
  match response with
  | None => s
  | Some csvText =>
      let csvData := parseCSV csvText in
      if Nat.ltb 0 (List.length csvData)
      then fst (processCSVData csvData s)
      else s
  end.

(** ** Sheet names of the export *)

(** The characters of the class [[\\\/:\*\?\[\]]]. *)
Definition isInvalidSheetChar (c : N) : bool :=
  ((c =? 92) || (c =? 47) || (c =? 58) || (c =? 42) || (c =? 63)
   || (c =? 91) || (c =? 93))%N.

(** The string '借閱者'. *)
Definition defaultSheetName : jsstring := [20511; 38321; 32773]%N.

(** [sanitizeSheetName(name)] of [exportBorrowedToExcel]. *)
Definition sanitizeSheetName (name : jsstring) : jsstring :=
  let safe := List.map (fun c => if isInvalidSheetChar c then 32%N else c) name in
  let safe := if negb (nonEmpty (trim safe)) then defaultSheetName else safe in
  if Nat.ltb 31 (List.length safe) then firstn 31 safe else safe.

(** ** The next free code *)

(** [String.prototype.toUpperCase] on strings of ASCII characters, for
    evaluating the definitions below on examples. *)
Definition asciiUpper (s : jsstring) : jsstring :=
  List.map (fun c => if (97 <=? c) && (c <=? 122) then c - 32 else c)%N s.

(** [s.padStart(4, '0')] *)
Definition padStart4 (s : jsstring) : jsstring :=
  repeat 48%N (4 - List.length s) ++ s.

Section NextBookId.
(** [String.prototype.toUpperCase], which the functions of this section
    apply to the codes of the catalogue. *)
Variable toUpperCase : jsstring -> jsstring.

(** The elements that the first loop of [generateNextBookId] adds to the
    set [used], in order (a code added twice is listed twice). *)
Definition usedCodes (bs : list Book.t) : list jsstring :=
  flat_map
    (fun book =>
       (if nonEmpty (Book.id book) then [toUpperCase (Book.id book)] else [])
       ++ match Book.bookIds book with
          | Some ids => List.map toUpperCase (filter nonEmpty ids)
          | None => []
          end)
    bs.

(** The number that the second loop reads off a used code: [None] when the
    code does not match [/^([ABC])(\d+)$/] or has another prefix. *)
Definition codeNumber (prefix id : jsstring) : option Z :=
  if testBookId id then
    match id with
    | c :: digits =>
        if str_eqb [c] prefix
        then option_map Z.of_N (parseDigits 10 None digits)
        else None
    | [] => None
    end
  else None.

Definition maxNum (prefix : jsstring) (used : list jsstring) : Z :=
  fold_left
    (fun m id => match codeNumber prefix id with
                 | Some n => Z.max m n
                 | None => m
                 end)
    used 0.

Definition candidate (prefix : jsstring) (next : Z) : jsstring :=
  prefix ++ padStart4 (toString next).

(** The [while (true)] loop, with a bound on its iterations: [None] when
    the bound is reached. *)
Fixpoint nextFree (fuel : nat) (prefix : jsstring) (used : list jsstring)
    (next : Z) : option jsstring :=
  match fuel with
  | O => None
  | S fuel' =>
      if includes (candidate prefix next) used
      then nextFree fuel' prefix used (next + 1)
      else Some (candidate prefix next)
  end.

(** [generateNextBookId(prefix)]; the loop is given one iteration more
    than there are used codes. *)
Definition generateNextBookId (prefix : jsstring) (s : LibrarySystem)
  : option jsstring :=
  let used := usedCodes (books s) in
  nextFree (S (List.length used)) prefix used (maxNum prefix used + 1).

End NextBookId.

(** A CSV text of four lines, each of which looks like a data row. *)
Definition fourLineCsv : jsstring :=
  lit "A0001,X" ++ newline :: lit "A0002,Y" ++ newline
    :: lit "A0003,Z" ++ newline :: lit "A0004,W".

(** A catalogue with a merged record and a lower-case id, for the next
    free code. *)
Definition mixedCatalogue : LibrarySystem :=
  stateOf
    [Book.mk (lit "A0001") (Some [lit "A0001"; lit "A0007"]) (lit "T")
       PictureBook 2024 2 2;
     Book.mk (lit "a12") None (lit "U") PictureBook 2024 1 1;
     Book.mk (lit "B0100") None (lit "V") BridgeBook 2024 1 1]
    [] admin.

(** ** Grouping of the export *)

(** The body of [records.forEach] in [exportBorrowedToExcel]:
    [if (!grouped.has(r.userId)) grouped.set(r.userId, []);
     grouped.get(r.userId).push(r)].  The [Map] is the list of its entries
    in insertion order, the order in which the sheets are written. *)
Definition groupAdd (r : Loan.t) (grouped : list (jsstring * list Loan.t))
  : list (jsstring * list Loan.t) :=
  let withKey :=
    if existsb (fun e => str_eqb (fst e) (Loan.userId r)) grouped
    then grouped
    else grouped ++ [(Loan.userId r, [])] in
  updateFirst (fun e => str_eqb (fst e) (Loan.userId r))
    (fun e => (fst e, snd e ++ [r])) withKey.

Definition groupByUser (records : list Loan.t)
  : list (jsstring * list Loan.t) :=
  fold_left (fun grouped r => groupAdd r grouped) records [].

(** The groups that a staff export writes, one sheet each. *)
Definition exportGroups (s : LibrarySystem) : list (jsstring * list Loan.t) :=
  groupByUser (filter Loan.isOpen (borrowedBooks s)).

(** * Properties *)

(** ** Strings and lists *)

Lemma str_eqb_eq (a b : jsstring) : str_eqb a b = true <-> a = b.
Proof.
  unfold str_eqb. destruct (str_eq_dec a b); split; congruence.
Qed.

Lemma str_eqb_refl (a : jsstring) : str_eqb a a = true.
Proof. now apply str_eqb_eq. Qed.

Lemma str_eqb_neq (a b : jsstring) : str_eqb a b = false <-> a <> b.
Proof.
  unfold str_eqb. destruct (str_eq_dec a b); split; congruence.
Qed.

Lemma hasId_eq (i : jsstring) (b : Book.t) : hasId i b = true <-> Book.id b = i.
Proof. apply str_eqb_eq. Qed.

Lemma set_availableCopies_same (b : Book.t) :
  Book.set_availableCopies (Book.availableCopies b) b = b.
Proof. now destruct b. Qed.

Section UpdateFirst.
Context {A : Type} (p : A -> bool) (f : A -> A).

Lemma updateFirst_none (l : list A) :
  find p l = None -> updateFirst p f l = l.
Proof.
  induction l as [|x r IH]; simpl; [easy|].
  destruct (p x); [discriminate|]. intros H. now rewrite IH.
Qed.

Lemma find_updateFirst (l : list A) :
  (forall x, p x = true -> p (f x) = true) ->
  find p (updateFirst p f l) = option_map f (find p l).
Proof.
  intros Hp. induction l as [|x r IH]; simpl; [easy|].
  destruct (p x) eqn:E; simpl.
  - now rewrite (Hp x E).
  - now rewrite E.
Qed.

Lemma length_updateFirst (l : list A) :
  List.length (updateFirst p f l) = List.length l.
Proof.
  induction l as [|x r IH]; simpl; [easy|].
  destruct (p x); simpl; congruence.
Qed.

Lemma updateFirst_app_l (l l' : list A) (x : A) :
  find p l = Some x -> updateFirst p f (l ++ l') = updateFirst p f l ++ l'.
Proof.
  induction l as [|y r IH]; simpl; [discriminate|].
  destruct (p y); [easy|]. intros H. now rewrite IH.
Qed.

Lemma updateFirst_app_r (l l' : list A) :
  find p l = None -> updateFirst p f (l ++ l') = l ++ updateFirst p f l'.
Proof.
  induction l as [|y r IH]; simpl; [easy|].
  destruct (p y); [discriminate|]. intros H. now rewrite IH.
Qed.
End UpdateFirst.


Lemma updateFirst_undo {A} (p : A -> bool) (f g : A -> A) (l : list A) :
  (forall x, p x = true -> p (f x) = true) ->
  (forall x, g (f x) = x) ->
  updateFirst p g (updateFirst p f l) = l.
Proof.
  intros Hp Hg. induction l as [|x r IH]; simpl; [easy|].
  destruct (p x) eqn:E; simpl.
  - now rewrite (Hp x E), Hg.
  - now rewrite E, IH.
Qed.

Lemma find_app_none {A} (p : A -> bool) (l l' : list A) :
  find p l = None -> find p (l ++ l') = find p l'.
Proof.
  induction l as [|x r IH]; simpl; [easy|].
  destruct (p x); [discriminate|]. exact IH.
Qed.

Lemma find_none_forall {A} (p : A -> bool) (l : list A) :
  (forall x, In x l -> p x = false) -> find p l = None.
Proof.
  induction l as [|x r IH]; simpl; [easy|].
  intros H. rewrite (H x (or_introl eq_refl)). apply IH.
  intros y Hy. apply H. now right.
Qed.

(** ** Open loans *)

Lemma hasOpenLoanb_spec (bookId user : jsstring) (ls : list Loan.t) :
  hasOpenLoanb bookId user ls = true <-> hasOpenLoan bookId user ls.
Proof.
  unfold hasOpenLoanb, hasOpenLoan. rewrite existsb_exists.
  split; intros [l [Hin H]]; exists l; split; trivial.
  - apply andb_prop in H as [H Ho]. apply andb_prop in H as [Hb Hu].
    apply str_eqb_eq in Hb, Hu. unfold Loan.isOpen in Ho.
    destruct (Loan.returnedAt l); [discriminate|]. now repeat split.
  - destruct H as (Hb & Hu & Hr). unfold Loan.isOpen. rewrite Hr.
    subst. now rewrite !str_eqb_refl.
Qed.

Lemma hasOpenLoanb_false (bookId user : jsstring) (ls : list Loan.t) :
  hasOpenLoanb bookId user ls = false <-> ~ hasOpenLoan bookId user ls.
Proof.
  rewrite <- hasOpenLoanb_spec. destruct (hasOpenLoanb bookId user ls);
    split; congruence.
Qed.

Lemma openLoansFor_app (i : jsstring) (l l' : list Loan.t) :
  openLoansFor i (l ++ l') = openLoansFor i l + openLoansFor i l'.
Proof.
  unfold openLoansFor. rewrite filter_app, length_app. lia.
Qed.

Lemma openLoansFor_nonneg (i : jsstring) (l : list Loan.t) :
  0 <= openLoansFor i l.
Proof. unfold openLoansFor. lia. Qed.

(** ** Borrowing *)

Lemma borrowBook_unfold_ok bookId tDate tId tTimer s u book :
  mayBorrow u s ->
  find (hasId bookId) (books s) = Some book ->
  borrowBook bookId tDate tId tTimer s =
    if Book.availableCopies book <=? 0 then (s, [NoCopiesAvailable])
    else if hasOpenLoanb bookId (username u) (borrowedBooks s)
    then (s, [AlreadyBorrowed])
    else
      (scheduleAutoSync tTimer
         (set_books
            (updateFirst (hasId bookId)
               (fun b => Book.set_availableCopies (Book.availableCopies b - 1) b)
               (books s))
            (set_borrowedBooks
               (borrowedBooks s
                ++ [Loan.mk (toString tId) bookId (Book.title book) (username u)
                      tDate (tDate + loanDays (settings s) * msPerDay) None])
               s)),
       [BorrowSucceeded]).
Proof.
  intros [Hu Hg] Hf. unfold borrowBook. rewrite Hu, Hg, Hf. reflexivity.
Qed.

(** C2.  For a user who is logged in and allowed to borrow, and a code
    that [books.find] resolves to [book]: with [availableCopies <= 0] the
    call fails with [NoCopiesAvailable]; with an open loan of the same user
    on the code it fails too, with [AlreadyBorrowed] once copies are
    available (the copies test comes first); a failed call leaves the whole
    state as it was.  Otherwise the call succeeds: exactly one record is
    appended to the ledger, it is open and carries the code and the user,
    the open loans on the code grow by one, and the record found has its
    [availableCopies] lowered by exactly 1, nothing else in it changing. *)
Theorem borrowBook_outcomes :
  forall bookId tDate tId tTimer s u book,
    mayBorrow u s ->
    find (hasId bookId) (books s) = Some book ->
    let out := borrowBook bookId tDate tId tTimer s in
    (Book.availableCopies book <= 0 -> out = (s, [NoCopiesAvailable]))
    /\ (hasOpenLoan bookId (username u) (borrowedBooks s) ->
        out = (s, [if Book.availableCopies book <=? 0
                   then NoCopiesAvailable else AlreadyBorrowed]))
    /\ (0 < Book.availableCopies book ->
        ~ hasOpenLoan bookId (username u) (borrowedBooks s) ->
        exists r,
          snd out = [BorrowSucceeded]
          /\ borrowedBooks (fst out) = borrowedBooks s ++ [r]
          /\ Loan.returnedAt r = None
          /\ Loan.bookId r = bookId
          /\ Loan.userId r = username u
          /\ openLoansFor bookId (borrowedBooks (fst out))
             = openLoansFor bookId (borrowedBooks s) + 1
          /\ List.length (books (fst out)) = List.length (books s)
          /\ find (hasId bookId) (books (fst out))
             = Some (Book.set_availableCopies
                       (Book.availableCopies book - 1) book)).
Proof.
  intros bookId tDate tId tTimer s u book Hm Hf out.
  subst out. rewrite (borrowBook_unfold_ok _ _ _ _ _ _ _ Hm Hf).
  split; [|split].
  - intros Hle. apply Z.leb_le in Hle. now rewrite Hle.
  - intros Ho. apply hasOpenLoanb_spec in Ho. rewrite Ho.
    now destruct (Book.availableCopies book <=? 0).
  - intros Hlt Hno. apply hasOpenLoanb_false in Hno. rewrite Hno.
    assert (E : (Book.availableCopies book <=? 0) = false)
      by (apply Z.leb_gt; exact Hlt).
    rewrite E. eexists. simpl.
    repeat split.
    + rewrite openLoansFor_app. f_equal. unfold openLoansFor. simpl.
      rewrite str_eqb_refl. reflexivity.
    + apply length_updateFirst.
    + rewrite find_updateFirst by (intros x Hx; exact Hx).
      rewrite Hf. reflexivity.
Qed.

(** ** Borrow then return *)

Lemma find_loan_fresh (i : jsstring) (ls : list Loan.t) (r : Loan.t) :
  (forall l, In l ls -> Loan.id l <> i) ->
  Loan.id r = i ->
  find (fun b => str_eqb (Loan.id b) i) (ls ++ [r]) = Some r.
Proof.
  intros Hfresh Hr. rewrite find_app_none.
  - simpl. rewrite Hr, str_eqb_refl. reflexivity.
  - apply find_none_forall. intros l Hl. apply str_eqb_neq. now apply Hfresh.
Qed.

Lemma updateFirst_loan_fresh (i : jsstring) (f : Loan.t -> Loan.t)
    (ls : list Loan.t) (r : Loan.t) :
  (forall l, In l ls -> Loan.id l <> i) ->
  Loan.id r = i ->
  updateFirst (fun b => str_eqb (Loan.id b) i) f (ls ++ [r]) = ls ++ [f r].
Proof.
  intros Hfresh Hr. rewrite updateFirst_app_r.
  - simpl. rewrite Hr, str_eqb_refl. reflexivity.
  - apply find_none_forall. intros l Hl. apply str_eqb_neq. now apply Hfresh.
Qed.

(** Borrow then return, for a loan id that is new to the ledger.  When
    [borrowBook] succeeds with loan id [L = String(tId)] and no earlier
    record of the ledger carries the id [L], the call [returnBook(L)] that
    follows succeeds, gives every book record back its value from before
    the borrow (so [availableCopies] is restored), stamps the new record
    with the return time and lowers the number of open loans on the code
    by one. *)
Theorem borrow_return_roundtrip :
  forall bookId tDate tId tTimer tReturn tTimer' s s1,
    borrowBook bookId tDate tId tTimer s = (s1, [BorrowSucceeded]) ->
    (forall l, In l (borrowedBooks s) -> Loan.id l <> toString tId) ->
    let out := returnBook (toString tId) tReturn tTimer' s1 in
    snd out = [ReturnSucceeded]
    /\ books (fst out) = books s
    /\ availableOf bookId (books (fst out)) = availableOf bookId (books s)
    /\ (exists r,
          borrowedBooks s1 = borrowedBooks s ++ [r]
          /\ Loan.id r = toString tId
          /\ Loan.returnedAt r = None
          /\ borrowedBooks (fst out)
             = borrowedBooks s ++ [Loan.set_returnedAt (Some tReturn) r])
    /\ openLoansFor bookId (borrowedBooks (fst out))
       = openLoansFor bookId (borrowedBooks s1) - 1.
Proof.
  intros bookId tDate tId tTimer tReturn tTimer' s s1 Hb Hfresh out.
  unfold borrowBook in Hb.
  destruct (currentUser s) as [u|]; [|discriminate].
  destruct (str_eqb (role u) (lit "guest") && negb (guestBorrow (settings s)));
    [discriminate|].
  destruct (find (hasId bookId) (books s)) as [book|] eqn:Hf; [|discriminate].
  destruct (Book.availableCopies book <=? 0); [discriminate|].
  destruct (existsb _ (borrowedBooks s)); [discriminate|].
  injection Hb as Hs1. subst s1 out.
  set (r := Loan.mk (toString tId) bookId (Book.title book) (username u) tDate
              (tDate + loanDays (settings s) * msPerDay) None).
  unfold returnBook. simpl borrowedBooks.
  rewrite (find_loan_fresh (toString tId) (borrowedBooks s) r Hfresh eq_refl).
  simpl.
  rewrite (updateFirst_loan_fresh (toString tId) _ (borrowedBooks s) r
             Hfresh eq_refl).
  assert (Hbooks :
    updateFirst (hasId bookId)
      (fun b => Book.set_availableCopies (Book.availableCopies b + 1) b)
      (updateFirst (hasId bookId)
         (fun b => Book.set_availableCopies (Book.availableCopies b - 1) b)
         (books s)) = books s).
  { apply updateFirst_undo.
    - intros x Hx. exact Hx.
    - intros [i bi t g y c a]. unfold Book.set_availableCopies. simpl.
      f_equal. lia. }
  rewrite Hbooks.
  repeat split.
  - exists r. repeat split.
  - rewrite !openLoansFor_app. unfold openLoansFor. simpl.
    rewrite str_eqb_refl. simpl. lia.
Qed.

(** The end-to-end run: alice borrows one of two copies, her second attempt
    is refused, bob takes the last copy and carol finds none. *)
Lemma borrowBook_outcomes_witness :
  borrowBook (lit "A0001") 3000 3000 3000 (asUser carol afterBob)
    = (asUser carol afterBob, [NoCopiesAvailable])
  /\ borrowBook (lit "A0001") 1500 1500 1500 afterAlice
     = (afterAlice, [AlreadyBorrowed])
  /\ snd (borrowBook (lit "A0001") 1000 1000 1000 catalogue2) = [BorrowSucceeded]
  /\ availableOf (lit "A0001") (books afterAlice) = Some 1
  /\ availableOf (lit "A0001") (books afterBob) = Some 0.
Proof.
  split; [|split; [|split; [|split]]].
  - pose proof (borrowBook_outcomes (lit "A0001") 3000 3000 3000
                  (asUser carol afterBob) carol (bookT 2 0)) as H.
    cbv zeta in H.
    destruct H as (H & _); [split; reflexivity | reflexivity |].
    apply H. simpl. lia.
  - pose proof (borrowBook_outcomes (lit "A0001") 1500 1500 1500
                  afterAlice alice (bookT 2 1)) as H.
    cbv zeta in H.
    destruct H as (_ & H & _); [split; reflexivity | reflexivity |].
    apply H. apply hasOpenLoanb_spec. reflexivity.
  - pose proof (borrowBook_outcomes (lit "A0001") 1000 1000 1000
                  catalogue2 alice (bookT 2 2)) as H.
    cbv zeta in H.
    destruct H as (_ & _ & H); [split; reflexivity | reflexivity |].
    destruct H as (r & H & _).
    + simpl. lia.
    + apply hasOpenLoanb_false. reflexivity.
    + exact H.
  - reflexivity.
  - reflexivity.
Defined.

(** Bob's borrow at clock reading 2000, after alice's at 1000, and its
    return. *)
Lemma borrow_return_roundtrip_witness :
  snd (returnBook (toString 2000) 2500 2500 afterBob) = [ReturnSucceeded]
  /\ books (fst (returnBook (toString 2000) 2500 2500 afterBob))
     = books afterAlice.
Proof.
  pose proof (borrow_return_roundtrip (lit "A0001") 2000 2000 2000 2500 2500
                (asUser bob afterAlice) afterBob) as H.
  cbv zeta in H.
  destruct H as (H1 & H2 & _).
  - reflexivity.
  - intros l [<-|[]]. vm_compute. discriminate.
  - split; [exact H1 | exact H2].
Defined.

(** C3 at the failing input.  Alice borrows and returns A0001 while the
    clock reads 1000, and borrows it again at the same reading:
    [borrowBook] gives the new loan the id "1000" that the returned loan
    already has.  [returnBook("1000")] then finds the old record first,
    reports it as already returned and changes nothing: the new loan stays
    open and the copy count stays at 1 instead of going back to 2. *)
Lemma reused_loan_id_breaks_roundtrip :
  let s1 := fst (borrowBook (lit "A0001") 1000 1000 1000 afterBorrowReturn) in
  let out := returnBook (toString 1000) 1001 1001 s1 in
  availableOf (lit "A0001") (books afterBorrowReturn) = Some 2
  /\ snd (borrowBook (lit "A0001") 1000 1000 1000 afterBorrowReturn)
     = [BorrowSucceeded]
  /\ List.map Loan.id (borrowedBooks s1) = [toString 1000; toString 1000]
  /\ List.map Loan.returnedAt (borrowedBooks s1) = [Some 1000; None]
  /\ snd out = [AlreadyReturned]
  /\ fst out = s1
  /\ availableOf (lit "A0001") (books (fst out)) = Some 1
  /\ openLoansFor (lit "A0001") (borrowedBooks (fst out)) = 1.
Proof. repeat split. Qed.

(** ** Code validation *)

Lemma isDigit_spec (c : N) : isDigit c = true <-> (48 <= c <= 57)%N.
Proof.
  unfold isDigit. rewrite andb_true_iff, !N.leb_le. tauto.
Qed.

Lemma isABC_spec (c : N) : isABC c = true <-> (c = 65 \/ c = 66 \/ c = 67)%N.
Proof.
  unfold isABC. rewrite !orb_true_iff, !N.eqb_eq. tauto.
Qed.

(** C7, as the code has it.  The pattern has no case-insensitive flag and
    no path upper-cases the code before the test: a code is valid iff it is
    one of the upper-case letters A, B, C followed by one or more ASCII
    digits.  "A0001" is accepted and "a0001" is rejected. *)
Theorem testBookId_spec :
  (forall id,
     testBookId id = true <->
     exists c ds,
       id = c :: ds /\ (c = 65 \/ c = 66 \/ c = 67)%N /\ ds <> []
       /\ Forall (fun d => (48 <= d <= 57)%N) ds)
  /\ testBookId (lit "A0001") = true
  /\ testBookId (lit "a0001") = false.
Proof.
  split; [|split; reflexivity].
  intros id. unfold testBookId. split.
  - destruct id as [|c [|d ds]]; try discriminate.
    intros H. apply andb_prop in H as [Hc Hd].
    exists c, (d :: ds). repeat split.
    + now apply isABC_spec.
    + discriminate.
    + apply Forall_forall. intros x Hx. apply isDigit_spec.
      rewrite forallb_forall in Hd. now apply Hd.
  - intros (c & ds & -> & Hc & Hne & Hd).
    destruct ds as [|d ds]; [contradiction|].
    apply andb_true_intro. split.
    + now apply isABC_spec.
    + apply forallb_forall. intros x Hx. apply isDigit_spec.
      rewrite Forall_forall in Hd. now apply Hd.
Qed.

(** C7 as stated fails: the lower-case code "a0001" is rejected by the
    pattern, by the add form and by the CSV import. *)
Lemma lowercase_code_counterexample :
  testBookId (lit "a0001") = false
  /\ handleAddBook (lit "a0001") (lit "T") (lit "2024") (lit "1") 0
       (stateOf [] [] admin)
     = (stateOf [] [] admin, [BadCodeFormat])
  /\ errors (snd (processCSVData [[lit "a0001"; lit "T"]] (stateOf [] [] admin)))
     = [CodeFormatError 5 (lit "a0001")]
  /\ books (fst (processCSVData [[lit "a0001"; lit "T"]] (stateOf [] [] admin)))
     = [].
Proof. repeat split. Qed.

(** ** CSV import *)

Lemma trim_nonEmpty (t : jsstring) : trim t <> [] -> nonEmpty t = true.
Proof.
  destruct t; [intros H; now contradiction H | reflexivity].
Qed.

Lemma nonEmpty_true (t : jsstring) : t <> [] -> nonEmpty t = true.
Proof. destruct t; [intros H; now contradiction H | reflexivity]. Qed.

(** A row with a well-formed code and a title that is not blank passes
    the first three tests of the loop body. *)
Lemma csvRow_valid st i c0 c1 rest acc :
  nonEmpty c0 = true ->
  testBookId (trim c0) = true ->
  trim c1 <> [] ->
  csvRow st i (c0 :: c1 :: rest) acc =
    if mapHas (trim c1) (bookMap acc)
       && match mapGet (trim c1) (bookMap acc) with
          | Some b => includes (trim c0) (bookIdsOf b)
          | None => false
          end
    then mkAcc (bookMap acc) (successCount acc) (errorCount acc + 1)
           (errors acc ++ [CodeDuplicate (i + 5) (trim c0)])
    else
      mkAcc
        (if mapHas (trim c1) (bookMap acc) then
           updateFirst (fun e => str_eqb (fst e) (trim c1))
             (fun e => (fst e, mergeCopy (trim c0) csvCopiesPerRow (snd e)))
             (bookMap acc)
         else
           bookMap acc
             ++ [(trim c1,
                  Book.mk (trim c0) (Some [trim c0]) (trim c1)
                    (getGenreFromId (trim c0)) (defaultYear st)
                    csvCopiesPerRow csvCopiesPerRow)])
        (successCount acc + 1) (errorCount acc) (errors acc).
Proof.
  intros H0 Hid Ht. unfold csvRow. simpl nth_error. cbv beta iota.
  rewrite H0, Hid, (trim_nonEmpty c1 Ht), (nonEmpty_true (trim c1) Ht).
  reflexivity.
Qed.

(** C5.  Two rows with the codes A0001 and A0002 and the same title (any
    string that is not blank) are imported as one record: its id is the
    first code, [bookIds] lists both codes in order, and it has 2 copies,
    both available.  Both rows are counted as successes and no error is
    recorded. *)
Theorem processCSVData_merges_same_title :
  forall s title rest1 rest2,
    trim title <> [] ->
    let out :=
      processCSVData [lit "A0001" :: title :: rest1;
                      lit "A0002" :: title :: rest2] s in
    books (fst out)
      = [Book.mk (lit "A0001") (Some [lit "A0001"; lit "A0002"]) (trim title)
           PictureBook (defaultYear (settings s)) 2 2]
    /\ successCount (snd out) = 2
    /\ errorCount (snd out) = 0
    /\ errors (snd out) = [].
Proof.
  intros s title rest1 rest2 Ht out. subst out.
  unfold processCSVData. cbn [csvLoop].
  rewrite (csvRow_valid _ _ (lit "A0002") title rest2 _ eq_refl eq_refl Ht).
  rewrite (csvRow_valid _ _ (lit "A0001") title rest1 _ eq_refl eq_refl Ht).
  unfold mapHas, mapGet. simpl. rewrite str_eqb_refl. simpl.
  repeat split.
Qed.

(** Two rows of the title " T ", the second with a third cell. *)
Lemma processCSVData_merges_same_title_witness :
  books (fst (processCSVData
                [[lit "A0001"; lit " T "]; [lit "A0002"; lit " T "; lit "x"]]
                catalogue2))
  = [Book.mk (lit "A0001") (Some [lit "A0001"; lit "A0002"]) (lit "T")
       PictureBook 2024 2 2].
Proof.
  pose proof (processCSVData_merges_same_title catalogue2 (lit " T ") []
                [lit "x"]) as H.
  cbv zeta in H. destruct H as (H & _).
  - vm_compute. discriminate.
  - exact H.
Defined.

Lemma mapHas_false (t : jsstring) (m : list (jsstring * Book.t)) :
  mapHas t m = false -> find (fun e => str_eqb (fst e) t) m = None.
Proof.
  unfold mapHas. induction m as [|e r IH]; simpl; [easy|].
  destruct (str_eqb (fst e) t); [discriminate|]. exact IH.
Qed.

Lemma mapHas_true (t : jsstring) (m : list (jsstring * Book.t)) :
  mapHas t m = true ->
  exists e, find (fun e => str_eqb (fst e) t) m = Some e.
Proof.
  unfold mapHas. induction m as [|e r IH]; simpl; [discriminate|].
  destruct (str_eqb (fst e) t); [now exists e|]. exact IH.
Qed.







(** ** Spreadsheet import *)

(** The part of the duplicate test that the code does perform: a row whose
    code is the [id] of a record of the catalogue adds no record, adds one
    entry to [errors] and raises [errorCount] by one. *)
Lemma importRow_rejects_existing_id st i row bs acc :
  cellTruthy (cellAt row 0) = true ->
  existsb (hasId (trim (cellToString (cellAt row 0)))) bs = true ->
  fst (importRow st i row (bs, acc)) = bs
  /\ errorCount (snd (importRow st i row (bs, acc))) = errorCount acc + 1
  /\ successCount (snd (importRow st i row (bs, acc))) = successCount acc
  /\ exists e, errors (snd (importRow st i row (bs, acc))) = errors acc ++ [e].
Proof.
  intros Hc Hdup. unfold importRow. rewrite Hc, Hdup. cbn [negb].
  destruct (testBookId (trim (cellToString (cellAt row 0)))); cbn [negb];
    simpl; repeat split; eexists; reflexivity.
Qed.

(** C6 at the failing input: the catalogue holds one record with id A0001
    whose [bookIds] lists A0001 and A0002; a sheet row with the code A0002
    is imported as a new record, with no error entry. *)
Lemma import_accepts_code_in_bookIds :
  books mergedCatalogue
    = [Book.mk (lit "A0001") (Some [lit "A0001"; lit "A0002"]) (lit "T")
         PictureBook 2024 2 2]
  /\ books (fst (fst (processImportData sheetA0002 mergedCatalogue)))
     = books mergedCatalogue
       ++ [Book.mk (lit "A0002") None (lit "X") PictureBook 2024 1 1]
  /\ successCount (snd (fst (processImportData sheetA0002 mergedCatalogue))) = 1
  /\ errorCount (snd (fst (processImportData sheetA0002 mergedCatalogue))) = 0
  /\ errors (snd (fst (processImportData sheetA0002 mergedCatalogue))) = []
  /\ snd (processImportData sheetA0002 mergedCatalogue) = [ImportSucceeded 1].
Proof. repeat split. Qed.

(** ** Automatic push: cooldown *)

(** While the cooldown runs, an automatic push changes nothing: in
    particular no request is added to the log. *)
Lemma autoPush_skipped_in_cooldown now res tCatch s :
  now < autoSyncCooldownUntil s ->
  autoPushToGoogleSheets now res tCatch s = s.
Proof.
  intros H. unfold autoPushToGoogleSheets.
  destruct (getGoogleWebAppUrl s); [|reflexivity].
  apply Z.ltb_lt in H. now rewrite H.
Qed.

(** A push whose [fetch] rejects sets the cooldown to the clock reading of
    the [catch] block plus the backoff. *)
Lemma autoPush_transport_failure_sets_cooldown now tCatch s url :
  getGoogleWebAppUrl s = Some url ->
  autoSyncCooldownUntil s <= now ->
  autoSyncMinIntervalMs <= now - autoSyncLastRunAt s ->
  autoSyncCooldownUntil (autoPushToGoogleSheets now FetchRejected tCatch s)
    = tCatch + autoSyncBackoffMs
  /\ pushCount (autoPushToGoogleSheets now FetchRejected tCatch s)
     = S (pushCount s).
Proof.
  intros Hu Hc Hi. unfold autoPushToGoogleSheets, pushToGoogleSheets.
  assert (Hu' : getGoogleWebAppUrl (set_autoSyncLastRunAt now s) = Some url)
    by exact Hu.
  rewrite Hu, Hu'.
  apply Z.ltb_ge in Hc, Hi. rewrite Hc, Hi. split; reflexivity.
Qed.

(** A push answered with a status outside 2xx returns normally from
    [pushToGoogleSheets], so the [catch] block of the automatic push does
    not run and the cooldown keeps its value. *)
Lemma autoPush_non2xx_keeps_cooldown now result tCatch s :
  autoSyncCooldownUntil
    (autoPushToGoogleSheets now (FetchResponse false result) tCatch s)
  = autoSyncCooldownUntil s.
Proof.
  unfold autoPushToGoogleSheets, pushToGoogleSheets.
  destruct (getGoogleWebAppUrl s) as [url|] eqn:Hu; [|reflexivity].
  assert (Hu' : getGoogleWebAppUrl (set_autoSyncLastRunAt now s) = Some url)
    by exact Hu.
  rewrite Hu'.
  destruct (now <? autoSyncCooldownUntil s); [reflexivity|].
  destruct (now - autoSyncLastRunAt s <? autoSyncMinIntervalMs); reflexivity.
Qed.

(** C10 at the failing input: an automatic push at clock reading 100000 is
    answered with a non-2xx status.  The request was sent, the cooldown is
    still 0, and the next automatic push 30 seconds later, before the 60
    seconds of the backoff have passed, sends a second request. *)
Lemma autoPush_non2xx_no_cooldown :
  let s1 :=
    autoPushToGoogleSheets 100000 (FetchResponse false None) 100100 catalogue2
  in
  let s2 := autoPushToGoogleSheets 130000 (FetchResponse false None) 130100 s1
  in
  pushCount catalogue2 = 0%nat
  /\ pushCount s1 = 1%nat
  /\ autoSyncCooldownUntil s1 = 0
  /\ 130000 < 100100 + autoSyncBackoffMs
  /\ pushCount s2 = 2%nat.
Proof. repeat split. Qed.

(** ** Pull: the protect-empty rule *)

(** The response of a pull that is well-formed and carries no book. *)
Lemma applyPull_protectEmpty opts result newLoans confirmed s :
  protectEmpty opts = true ->
  books s <> [] ->
  bodyOk result = true ->
  bodyData result = Some (mkPullData (Some []) (Some newLoans)) ->
  applyPull opts (FetchResponse true (Some result)) confirmed s = (s, []).
Proof.
  intros Hp Hb Hok Hd. unfold applyPull. rewrite Hok, Hd, Hp. simpl.
  destruct (books s); [contradiction|reflexivity].
Qed.

(** C4.  An automatic pull ([startAutoPull], [autoUpdateBooks]: the pulls
    made with [silent] and [protectEmpty] set) that is answered by a
    well-formed response with an empty [books] array, while the local
    catalogue is not empty, leaves [books] and [borrowedBooks] as they
    were, and shows nothing; so does any pull made with [protectEmpty]. *)
Theorem autoPull_protects_catalogue :
  forall result newLoans confirmed s,
    books s <> [] ->
    bodyOk result = true ->
    bodyData result = Some (mkPullData (Some []) (Some newLoans)) ->
    let res := FetchResponse true (Some result) in
    (books (autoPull res confirmed s) = books s
     /\ borrowedBooks (autoPull res confirmed s) = borrowedBooks s
     /\ snd (pullFromGoogleSheets autoPullOptions [] res confirmed s) = [])
    /\ forall opts uiValue,
         protectEmpty opts = true ->
         books (fst (pullFromGoogleSheets opts uiValue res confirmed s))
           = books s
         /\ borrowedBooks (fst (pullFromGoogleSheets opts uiValue res confirmed s))
            = borrowedBooks s.
Proof.
  intros result newLoans confirmed s Hb Hok Hd res.
  assert (Hgen : forall opts uiValue,
    protectEmpty opts = true ->
    books (fst (pullFromGoogleSheets opts uiValue res confirmed s)) = books s
    /\ borrowedBooks (fst (pullFromGoogleSheets opts uiValue res confirmed s))
       = borrowedBooks s
    /\ (silent opts = true ->
        snd (pullFromGoogleSheets opts uiValue res confirmed s) = [])).
  { intros opts uiValue Hp. unfold pullFromGoogleSheets.
    destruct (silent opts) eqn:Hs.
    - destruct (getGoogleWebAppUrl s); [|now repeat split].
      subst res. rewrite (applyPull_protectEmpty opts result newLoans);
        trivial. simpl. now repeat split.
    - unfold getGoogleWebAppUrlFromUI.
      destruct (trim uiValue) as [|c r]; [repeat split; discriminate|].
      subst res. rewrite (applyPull_protectEmpty opts result newLoans);
        trivial. repeat split; discriminate. }
  split.
  - unfold autoPull.
    destruct (Hgen autoPullOptions [] eq_refl) as (H1 & H2 & H3).
    repeat split; auto.
  - intros opts uiValue Hp. destruct (Hgen opts uiValue Hp) as (H1 & H2 & _).
    now split.
Qed.

(** An empty answer to an automatic pull, after alice's borrow. *)
Lemma autoPull_protects_catalogue_witness :
  books (autoPull (FetchResponse true (Some emptyPullBody)) true afterAlice)
    = books afterAlice
  /\ borrowedBooks
       (autoPull (FetchResponse true (Some emptyPullBody)) true afterAlice)
     = borrowedBooks afterAlice.
Proof.
  pose proof (autoPull_protects_catalogue emptyPullBody [] true afterAlice)
    as H.
  cbv zeta in H. destruct H as ((H1 & H2 & _) & _).
  - vm_compute. discriminate.
  - reflexivity.
  - reflexivity.
  - split; [exact H1 | exact H2].
Defined.

(** ** Debounce *)

Lemma scheduleAutoSync_arms now s :
  wfTimers s ->
  timers (scheduleAutoSync now s) = [(nextTimerId s, now + autoSyncDebounceMs)]
  /\ autoSyncTimer (scheduleAutoSync now s) = Some (nextTimerId s).
Proof.
  unfold wfTimers, scheduleAutoSync. simpl.
  destruct (autoSyncTimer s) as [h|].
  - intros [due ->]. simpl. rewrite Pos.eqb_refl. now split.
  - intros ->. now split.
Qed.

Lemma scheduleAutoSync_wf now s : wfTimers s -> wfTimers (scheduleAutoSync now s).
Proof.
  intros H. destruct (scheduleAutoSync_arms now s H) as [Ht Ha].
  unfold wfTimers. rewrite Ha, Ht. now eexists.
Qed.

Lemma scheduleAutoSync_requests now s :
  requests (scheduleAutoSync now s) = requests s.
Proof. reflexivity. Qed.

Lemma pushToGoogleSheets_frame silent res s :
  let s' := fst (fst (pushToGoogleSheets silent res s)) in
  timers s' = timers s /\ autoSyncTimer s' = autoSyncTimer s
  /\ (pushCount s <= pushCount s' <= S (pushCount s))%nat.
Proof.
  unfold pushToGoogleSheets.
  destruct (getGoogleWebAppUrl s); [|simpl; repeat split; lia].
  destruct res as [|ok result].
  - simpl. unfold pushCount. simpl. repeat split; lia.
  - destruct ok; [destruct result as [body|]; [destruct (bodyOk body)|]|];
      simpl; unfold pushCount; simpl; repeat split; lia.
Qed.

Lemma autoPush_frame now res tCatch s :
  let s' := autoPushToGoogleSheets now res tCatch s in
  timers s' = timers s /\ autoSyncTimer s' = autoSyncTimer s
  /\ (pushCount s <= pushCount s' <= S (pushCount s))%nat.
Proof.
  unfold autoPushToGoogleSheets.
  destruct (getGoogleWebAppUrl s); [|simpl; repeat split; lia].
  destruct (now <? autoSyncCooldownUntil s); [simpl; repeat split; lia|].
  destruct (now - autoSyncLastRunAt s <? autoSyncMinIntervalMs);
    [simpl; repeat split; lia|].
  pose proof (pushToGoogleSheets_frame true res (set_autoSyncLastRunAt now s))
    as H. cbv zeta in H.
  destruct (pushToGoogleSheets true res (set_autoSyncLastRunAt now s))
    as [[s2 t] c]. simpl in H. destruct c; simpl; exact H.
Qed.

(** A timer that fires was in the table and due; it leaves the table, the
    [autoSyncTimer] field is reset and at most one request is sent. *)
Lemma fireTimer_fired h now res tCatch s s' :
  fireTimer h now res tCatch s = Some s' ->
  (exists due, In (h, due) (timers s) /\ due <= now)
  /\ timers s' = clearTimeout h (timers s)
  /\ autoSyncTimer s' = None
  /\ (pushCount s <= pushCount s' <= S (pushCount s))%nat.
Proof.
  unfold fireTimer.
  destruct (find (fun t => Pos.eqb (fst t) h) (timers s)) as [[h' due]|] eqn:Hf;
    [|discriminate].
  destruct (due <=? now) eqn:Hd; [|discriminate].
  intros [= <-]. apply find_some in Hf as [Hin Hh]. simpl in Hh.
  apply Pos.eqb_eq in Hh. subst h'. apply Z.leb_le in Hd.
  split; [now exists due|].
  unfold autoSyncCallback.
  match goal with
  | |- context [autoPushToGoogleSheets now res tCatch ?x] =>
      pose proof (autoPush_frame now res tCatch x) as H
  end.
  cbv zeta in H. simpl in H. exact H.
Qed.

Lemma fireTimer_not_due h now res tCatch s :
  (forall t, In t (timers s) -> now < snd t) ->
  fireTimer h now res tCatch s = None.
Proof.
  intros Hall. unfold fireTimer.
  destruct (find (fun t => Pos.eqb (fst t) h) (timers s)) as [[h' due]|] eqn:Hf;
    [|reflexivity].
  apply find_some in Hf as [Hin _]. specialize (Hall _ Hin). simpl in Hall.
  assert (E : (due <=? now) = false) by (apply Z.leb_gt; lia).
  now rewrite E.
Qed.

Lemma runFirings_idle fs s : timers s = [] -> runFirings fs s = s.
Proof.
  intros Ht. induction fs as [|f rest IH]; simpl; [reflexivity|].
  rewrite fireTimer_not_due; [exact IH|].
  rewrite Ht. intros t [].
Qed.

Lemma runFirings_single fs s h due :
  timers s = [(h, due)] ->
  (pushCount (runFirings fs s) <= S (pushCount s))%nat.
Proof.
  intros Ht. induction fs as [|f rest IH]; simpl; [lia|].
  destruct (fireTimer (firedTimer f) (firedAt f) (fetchOutcome f) (caughtAt f) s)
    as [s'|] eqn:Hfire; [|exact IH].
  apply fireTimer_fired in Hfire as ([d [Hin _]] & Ht' & _ & Hc).
  rewrite Ht in Hin, Ht'. destruct Hin as [[= -> ->]|[]].
  simpl in Ht'. rewrite Pos.eqb_refl in Ht'. simpl in Ht'.
  rewrite (runFirings_idle rest s' Ht'). lia.
Qed.

(** C9.  From a state whose timer table agrees with [autoSyncTimer], three
    calls of [scheduleAutoSync] at clock readings [t1 <= t2 <= t3], the last
    within the debounce delay of the first: each call leaves exactly one
    timer in the table, its own, so the pending timer of the call before
    was cancelled; the timers of the first two calls cannot fire before the
    next call cancels them; the timer of the last call cannot fire before
    [t3] plus the delay and can fire from then on; when it fires the table
    is empty and [autoSyncTimer] is reset; and whatever timers fire after
    the burst, at most one push request is sent. *)
Theorem scheduleAutoSync_debounce :
  forall s t1 t2 t3,
    wfTimers s ->
    t1 <= t2 -> t2 <= t3 -> t3 < t1 + autoSyncDebounceMs ->
    let s1 := scheduleAutoSync t1 s in
    let s2 := scheduleAutoSync t2 s1 in
    let s3 := scheduleAutoSync t3 s2 in
    timers s1 = [(nextTimerId s, t1 + autoSyncDebounceMs)]
    /\ timers s2 = [(nextTimerId s1, t2 + autoSyncDebounceMs)]
    /\ timers s3 = [(nextTimerId s2, t3 + autoSyncDebounceMs)]
    /\ autoSyncTimer s3 = Some (nextTimerId s2)
    /\ (forall h now res tCatch,
          now <= t2 -> fireTimer h now res tCatch s1 = None)
    /\ (forall h now res tCatch,
          now <= t3 -> fireTimer h now res tCatch s2 = None)
    /\ (forall h now res tCatch,
          now < t3 + autoSyncDebounceMs -> fireTimer h now res tCatch s3 = None)
    /\ (forall now res tCatch,
          t3 + autoSyncDebounceMs <= now ->
          exists s', fireTimer (nextTimerId s2) now res tCatch s3 = Some s'
                     /\ timers s' = [] /\ autoSyncTimer s' = None)
    /\ (forall fs, (pushCount (runFirings fs s3) <= S (pushCount s))%nat).
Proof.
  intros s t1 t2 t3 Hwf H12 H23 Hwin s1 s2 s3.
  destruct (scheduleAutoSync_arms t1 s Hwf) as [T1 A1].
  pose proof (scheduleAutoSync_wf t1 s Hwf) as Hwf1. fold s1 in T1, A1, Hwf1.
  destruct (scheduleAutoSync_arms t2 s1 Hwf1) as [T2 A2].
  pose proof (scheduleAutoSync_wf t2 s1 Hwf1) as Hwf2. fold s2 in T2, A2, Hwf2.
  destruct (scheduleAutoSync_arms t3 s2 Hwf2) as [T3 A3]. fold s3 in T3, A3.
  repeat match goal with |- _ /\ _ => split end; trivial.
  - intros h now res tCatch Hnow. apply fireTimer_not_due.
    rewrite T1. intros t [<-|[]]. simpl. lia.
  - intros h now res tCatch Hnow. apply fireTimer_not_due.
    rewrite T2. intros t [<-|[]]. simpl. lia.
  - intros h now res tCatch Hnow. apply fireTimer_not_due.
    rewrite T3. intros t [<-|[]]. simpl. lia.
  - intros now res tCatch Hnow.
    destruct (fireTimer (nextTimerId s2) now res tCatch s3) as [s'|] eqn:Hfire.
    + exists s'. apply fireTimer_fired in Hfire as (_ & Ht' & Ha' & _).
      rewrite T3 in Ht'. simpl in Ht'. rewrite Pos.eqb_refl in Ht'.
      now repeat split.
    + exfalso. unfold fireTimer in Hfire. rewrite T3 in Hfire. simpl in Hfire.
      rewrite Pos.eqb_refl in Hfire.
      assert (E : (t3 + autoSyncDebounceMs <=? now) = true)
        by (apply Z.leb_le; exact Hnow).
      rewrite E in Hfire. discriminate.
  - intros fs.
    pose proof (runFirings_single fs s3 _ _ T3) as H.
    assert (Hc : pushCount s3 = pushCount s) by reflexivity.
    lia.
Qed.

(** Calls at 0, 700 and 1400 ms leave the third timer, due at 2900 ms. *)
Lemma scheduleAutoSync_debounce_witness :
  timers (scheduleAutoSync 1400
            (scheduleAutoSync 700 (scheduleAutoSync 0 catalogue2)))
  = [(3%positive, 2900)].
Proof.
  pose proof (scheduleAutoSync_debounce catalogue2 0 700 1400) as H.
  cbv zeta in H. destruct H as (_ & _ & H & _).
  - reflexivity.
  - lia.
  - lia.
  - vm_compute. reflexivity.
  - exact H.
Defined.

(** ** The copies invariant *)

Lemma copiesInvariantb_spec s : copiesInvariantb s = true <-> copiesInvariant s.
Proof.
  unfold copiesInvariantb, copiesInvariant. rewrite forallb_forall.
  split; intros H b Hb; specialize (H b Hb).
  - apply andb_prop in H as [H H3]. apply andb_prop in H as [H1 H2].
    apply Z.leb_le in H1, H2. apply Z.eqb_eq in H3. lia.
  - destruct H as [[H1 H2] H3].
    apply Z.leb_le in H1, H2. apply Z.eqb_eq in H3. now rewrite H1, H2, H3.
Qed.

(** C1 at the failing input.  From the empty catalogue: the CSV file with
    one copy of A0001 is imported, alice borrows the copy, and the same
    file is imported again.  The import rebuilds the record with its copy
    available while the ledger still holds the open loan, so
    [availableCopies = 1] where [copies - open loans = 0]; when alice then
    returns the copy, [availableCopies = 2] exceeds [copies = 1]. *)
Lemma reimport_breaks_copiesInvariant :
  let s := runOps reimportOps (stateOf [] [] alice) in
  let s' := runOps reimportReturnOps (stateOf [] [] alice) in
  books s = [Book.mk (lit "A0001") (Some [lit "A0001"]) (lit "T") PictureBook
               2024 1 1]
  /\ openLoansFor (lit "A0001") (borrowedBooks s) = 1
  /\ copiesInvariantb s = false
  /\ books s' = [Book.mk (lit "A0001") (Some [lit "A0001"]) (lit "T")
                   PictureBook 2024 1 2]
  /\ copiesInvariantb s' = false.
Proof. repeat split. Qed.

(** *** Preservation by borrow, return, add, edit and delete *)

Lemma hasId_false_notin i (bs : list Book.t) :
  ~ In i (List.map Book.id bs) -> forall b, In b bs -> hasId i b = false.
Proof.
  intros Hn b Hb. apply str_eqb_neq. intros E. apply Hn.
  rewrite <- E. now apply in_map.
Qed.

Lemma updateFirst_map i (f : Book.t -> Book.t) (bs : list Book.t) :
  NoDup (List.map Book.id bs) ->
  updateFirst (hasId i) f bs
    = List.map (fun b => if hasId i b then f b else b) bs.
Proof.
  induction bs as [|a r IH]; simpl; [reflexivity|].
  intros Hnd. inversion Hnd as [|x l Hnotin Hnd']; subst.
  destruct (hasId i a) eqn:E.
  - f_equal. rewrite <- (map_id r) at 1. apply map_ext_in.
    intros b Hb. apply hasId_eq in E. subst i.
    now rewrite (hasId_false_notin _ _ Hnotin b Hb).
  - f_equal. now apply IH.
Qed.

Lemma ids_updateFirst i (f : Book.t -> Book.t) (bs : list Book.t) :
  (forall b, Book.id (f b) = Book.id b) ->
  List.map Book.id (updateFirst (hasId i) f bs) = List.map Book.id bs.
Proof.
  intros Hf. induction bs as [|a r IH]; simpl; [reflexivity|].
  destruct (hasId i a); simpl; [now rewrite Hf | now rewrite IH].
Qed.

Lemma id_unique (bs : list Book.t) (b b' : Book.t) :
  NoDup (List.map Book.id bs) ->
  In b bs -> In b' bs -> Book.id b = Book.id b' -> b = b'.
Proof.
  induction bs as [|a r IH]; simpl; [easy|].
  intros Hnd Hb Hb' E. inversion Hnd as [|x l Hnotin Hnd']; subst x l.
  destruct Hb as [<-|Hb], Hb' as [<-|Hb']; trivial.
  - exfalso. apply Hnotin. rewrite E. now apply in_map.
  - exfalso. apply Hnotin. rewrite <- E. now apply in_map.
  - now apply IH.
Qed.

Lemma openLoansFor_snoc j (ls : list Loan.t) (r : Loan.t) :
  openLoansFor j (ls ++ [r])
  = openLoansFor j ls
    + (if str_eqb (Loan.bookId r) j && Loan.isOpen r then 1 else 0).
Proof.
  rewrite openLoansFor_app. f_equal. unfold openLoansFor. simpl.
  now destruct (str_eqb (Loan.bookId r) j && Loan.isOpen r).
Qed.

Lemma openLoansFor_pos j (ls : list Loan.t) (l : Loan.t) :
  In l ls -> Loan.bookId l = j -> Loan.isOpen l = true ->
  1 <= openLoansFor j ls.
Proof.
  intros Hin Hj Ho. unfold openLoansFor.
  assert (Hf : In l (filter (fun b => str_eqb (Loan.bookId b) j && Loan.isOpen b)
                       ls)).
  { apply filter_In. split; [exact Hin|]. subst j.
    now rewrite str_eqb_refl, Ho. }
  destruct (filter _ ls); [destruct Hf | simpl; lia].
Qed.

Lemma openLoansFor_zero j (ls : list Loan.t) :
  (forall l, In l ls -> Loan.returnedAt l = None -> Loan.bookId l <> j) ->
  openLoansFor j ls = 0.
Proof.
  intros H. unfold openLoansFor.
  induction ls as [|a r IH]; simpl; [reflexivity|].
  destruct (str_eqb (Loan.bookId a) j) eqn:E; simpl.
  - unfold Loan.isOpen. destruct (Loan.returnedAt a) eqn:Er.
    + apply IH. intros l Hl. apply H. now right.
    + exfalso. apply str_eqb_eq in E. apply (H a (or_introl eq_refl) Er E).
  - apply IH. intros l Hl. apply H. now right.
Qed.

(** Closing the first record with id [i], which is open, takes one open
    loan away from its code and none from the others. *)
Lemma openLoansFor_close i t j (ls : list Loan.t) (l : Loan.t) :
  find (fun b => str_eqb (Loan.id b) i) ls = Some l ->
  Loan.isOpen l = true ->
  openLoansFor j
    (updateFirst (fun b => str_eqb (Loan.id b) i)
       (Loan.set_returnedAt (Some t)) ls)
  = openLoansFor j ls - (if str_eqb (Loan.bookId l) j then 1 else 0).
Proof.
  unfold openLoansFor.
  induction ls as [|a r IH]; cbn [find updateFirst]; [discriminate|].
  destruct (str_eqb (Loan.id a) i) eqn:E.
  - intros [= ->] Ho. cbn [filter]. rewrite Ho.
    unfold Loan.set_returnedAt, Loan.isOpen. cbn [Loan.bookId Loan.returnedAt].
    rewrite andb_false_r, andb_true_r.
    destruct (str_eqb (Loan.bookId l) j); cbn [List.length]; lia.
  - intros Hf Ho. specialize (IH Hf Ho). cbn [filter].
    destruct (str_eqb (Loan.bookId a) j && Loan.isOpen a); cbn [List.length];
      lia.
Qed.

Lemma open_after_close i t (ls : list Loan.t) (x : Loan.t) :
  In x (updateFirst (fun b => str_eqb (Loan.id b) i)
          (Loan.set_returnedAt (Some t)) ls) ->
  Loan.returnedAt x = None -> In x ls.
Proof.
  induction ls as [|a r IH]; simpl; [easy|].
  destruct (str_eqb (Loan.id a) i); simpl.
  - intros [<-|Hx] Ho; [discriminate | now right].
  - intros [<-|Hx] Ho; [now left | right; now apply IH].
Qed.

Lemma NoDup_map_filter {A B} (f : A -> B) (p : A -> bool) (l : list A) :
  NoDup (List.map f l) -> NoDup (List.map f (filter p l)).
Proof.
  induction l as [|a r IH]; simpl; [easy|].
  intros Hnd. inversion Hnd as [|x l' Hnotin Hnd']; subst.
  destruct (p a); simpl; [|now apply IH].
  constructor; [|now apply IH].
  intros Hin. apply Hnotin. apply in_map_iff in Hin as [y [Hy Hin]].
  apply filter_In in Hin as [Hin _]. rewrite <- Hy. now apply in_map.
Qed.

Section Preservation.
Variables (bs : list Book.t) (ls : list Loan.t).
Hypothesis Hinv : ledgerHolds bs ls.

Let Hnd : NoDup (List.map Book.id bs) := proj1 Hinv.
Let Hcopies : copiesHold bs ls := proj1 (proj2 Hinv).
Let Hloans := proj2 (proj2 Hinv).

Lemma borrow_keeps i (book : Book.t) (r : Loan.t) :
  find (hasId i) bs = Some book ->
  0 < Book.availableCopies book ->
  Loan.bookId r = i ->
  Loan.returnedAt r = None ->
  ledgerHolds
    (updateFirst (hasId i)
       (fun b => Book.set_availableCopies (Book.availableCopies b - 1) b) bs)
    (ls ++ [r]).
Proof.
  intros Hf Hpos Hr Ho.
  apply find_some in Hf as [Hin Hid]. apply hasId_eq in Hid.
  split; [|split].
  - now rewrite ids_updateFirst.
  - rewrite (updateFirst_map _ _ _ Hnd). intros b' Hb'.
    apply in_map_iff in Hb' as [b [<- Hb]].
    destruct (Hcopies b Hb) as [Hrange Heq].
    rewrite openLoansFor_snoc. unfold Loan.isOpen. rewrite Ho, Hr.
    destruct (hasId i b) eqn:E.
    + apply hasId_eq in E.
      assert (b = book) by (apply (id_unique bs); congruence). subst b.
      cbn [Book.set_availableCopies Book.id Book.copies Book.availableCopies].
      rewrite <- E, str_eqb_refl. cbn [andb]. lia.
    + assert (E' : str_eqb i (Book.id b) = false).
      { apply str_eqb_neq. intros X. apply str_eqb_neq in E. congruence. }
      rewrite E'. simpl. lia.
  - rewrite ids_updateFirst by reflexivity. intros l Hl Hlo.
    apply in_app_or in Hl as [Hl|[<-|[]]].
    + now apply Hloans.
    + rewrite Hr, <- Hid. now apply in_map.
Qed.

Lemma return_keeps i t (l : Loan.t) :
  find (fun b => str_eqb (Loan.id b) i) ls = Some l ->
  Loan.isOpen l = true ->
  ledgerHolds
    (updateFirst (hasId (Loan.bookId l))
       (fun b => Book.set_availableCopies (Book.availableCopies b + 1) b) bs)
    (updateFirst (fun b => str_eqb (Loan.id b) i)
       (Loan.set_returnedAt (Some t)) ls).
Proof.
  intros Hf Ho.
  pose proof (find_some _ _ Hf) as [Hin _].
  split; [|split].
  - now rewrite ids_updateFirst.
  - rewrite (updateFirst_map _ _ _ Hnd). intros b' Hb'.
    apply in_map_iff in Hb' as [b [<- Hb]].
    destruct (Hcopies b Hb) as [Hrange Heq].
    destruct (hasId (Loan.bookId l) b) eqn:E.
    + apply hasId_eq in E.
      cbn [Book.set_availableCopies Book.id Book.copies Book.availableCopies].
      rewrite (openLoansFor_close i t (Book.id b) ls l Hf Ho).
      rewrite <- E, str_eqb_refl.
      pose proof (openLoansFor_pos (Book.id b) ls l Hin (eq_sym E) Ho). lia.
    + rewrite (openLoansFor_close i t (Book.id b) ls l Hf Ho).
      assert (E' : str_eqb (Loan.bookId l) (Book.id b) = false).
      { apply str_eqb_neq. intros X. apply str_eqb_neq in E. congruence. }
      rewrite E'. lia.
  - rewrite ids_updateFirst by reflexivity. intros x Hx Hxo.
    apply Hloans; [|exact Hxo]. now apply (open_after_close i t).
Qed.

Lemma add_keeps (newBook : Book.t) :
  existsb (hasId (Book.id newBook)) bs = false ->
  0 <= Book.copies newBook ->
  Book.availableCopies newBook = Book.copies newBook ->
  ledgerHolds (bs ++ [newBook]) ls.
Proof.
  intros Hfresh Hc Ha.
  assert (Hnotin : ~ In (Book.id newBook) (List.map Book.id bs)).
  { intros Hin. apply in_map_iff in Hin as [b [Hb Hin]].
    assert (X : existsb (hasId (Book.id newBook)) bs = true).
    { apply existsb_exists. exists b. split; [exact Hin|].
      now apply hasId_eq. }
    congruence. }
  split; [|split].
  - rewrite map_app. simpl. apply NoDup_app; [exact Hnd | | ].
    + constructor; [intros [] | constructor].
    + intros x Hx [<-|[]]. now apply Hnotin.
  - intros b Hb. apply in_app_or in Hb as [Hb|[<-|[]]].
    + now apply Hcopies.
    + rewrite openLoansFor_zero.
      * lia.
      * intros l Hl Hlo E. apply Hnotin. rewrite <- E. now apply Hloans.
  - intros l Hl Hlo. rewrite map_app. apply in_or_app. left.
    now apply Hloans.
Qed.

Lemma edit_keeps i title year newCopies :
  openLoansFor i ls <= newCopies ->
  ledgerHolds
    (updateFirst (hasId i)
       (editRecord title year newCopies (openLoansFor i ls)) bs) ls.
Proof.
  intros Hle. split; [|split].
  - now rewrite ids_updateFirst.
  - rewrite (updateFirst_map _ _ _ Hnd). intros b' Hb'.
    apply in_map_iff in Hb' as [b [<- Hb]].
    destruct (hasId i b) eqn:E; [|now apply Hcopies].
    apply hasId_eq in E. simpl. rewrite E.
    pose proof (openLoansFor_nonneg i ls). lia.
  - rewrite ids_updateFirst by reflexivity. exact Hloans.
Qed.

Lemma delete_keeps i :
  openLoansFor i ls <= 0 ->
  ledgerHolds (filter (fun b => negb (hasId i b)) bs) ls.
Proof.
  intros Hz. split; [|split].
  - now apply NoDup_map_filter.
  - intros b Hb. apply filter_In in Hb as [Hb _]. now apply Hcopies.
  - intros l Hl Hlo.
    pose proof (Hloans l Hl Hlo) as Hin.
    apply in_map_iff in Hin as [b [Hb Hin]].
    apply in_map_iff. exists b. split; [exact Hb|].
    apply filter_In. split; [exact Hin|].
    apply negb_true_iff. apply str_eqb_neq. intros E.
    assert (Loan.isOpen l = true) by (unfold Loan.isOpen; now rewrite Hlo).
    pose proof (openLoansFor_pos i ls l Hl) as Hp.
    assert (Loan.bookId l = i) by congruence.
    specialize (Hp H0 H). lia.
Qed.
End Preservation.

(** Borrow, return, edit and delete keep the copies invariant, and so does
    the add form when the copies it is given are not negative: from a state
    where the ids are distinct, the invariant holds and every open loan is
    on a record of the catalogue, each of these operations leads to such a
    state, whatever its arguments and whether it succeeds or fails. *)
Theorem stateInvariant_preserved :
  forall op s,
    stateInvariant s -> keepsInvariant op s -> stateInvariant (runOp op s).
Proof.
  intros op s Hinv Hop. unfold stateInvariant in *.
  destruct op as [bookId tDate tId tTimer | borrowId tReturn tTimer
                 | i t y c tTimer | i t y c | bookId confirmed | csv];
    simpl in *.
  - unfold borrowBook.
    destruct (currentUser s) as [u|]; [|exact Hinv].
    destruct (str_eqb (role u) (lit "guest") && negb (guestBorrow (settings s)));
      [exact Hinv|].
    destruct (find (hasId bookId) (books s)) as [book|] eqn:Hf; [|exact Hinv].
    destruct (Book.availableCopies book <=? 0) eqn:Ha; [exact Hinv|].
    destruct (existsb _ (borrowedBooks s)); [exact Hinv|].
    simpl. apply (borrow_keeps _ _ Hinv bookId book); trivial.
    apply Z.leb_gt in Ha. exact Ha.
  - unfold returnBook.
    destruct (find _ (borrowedBooks s)) as [l|] eqn:Hf; [|exact Hinv].
    destruct (Loan.isOpen l) eqn:Ho; [|exact Hinv].
    simpl. now apply return_keeps.
  - unfold handleAddBook.
    destruct (testBookId (trim i)); [|exact Hinv].
    destruct (existsb (hasId (trim i)) (books s)) eqn:Hd; [exact Hinv|].
    destruct (nonEmpty (trim t)); [|exact Hinv].
    simpl. now apply add_keeps.
  - unfold handleEditBook.
    destruct (isAdminUser s); [|exact Hinv].
    destruct (nonEmpty (trim i)); [|exact Hinv].
    destruct (nonEmpty (trim t)); [|exact Hinv].
    destruct (find (hasId (trim i)) (books s)); [|exact Hinv].
    destruct (parseIntOr c 1 <? openLoansFor (trim i) (borrowedBooks s)) eqn:Hc;
      [exact Hinv|].
    simpl. apply edit_keeps; [exact Hinv|]. apply Z.ltb_ge in Hc. exact Hc.
  - unfold deleteBook.
    destruct (isAdminUser s); [|exact Hinv].
    destruct (find (hasId bookId) (books s)); [|exact Hinv].
    destruct (0 <? openLoansFor bookId (borrowedBooks s)) eqn:Hc;
      [exact Hinv|].
    destruct confirmed; [|exact Hinv].
    simpl. apply delete_keeps; [exact Hinv|]. apply Z.ltb_ge in Hc. exact Hc.
  - contradiction.
Qed.

(** * Further properties *)

(** ** The copies invariant along a run *)

(** Alice's borrow from the two-copy catalogue keeps the state invariant. *)
Lemma stateInvariant_preserved_witness : stateInvariant afterAlice.
Proof.
  apply (stateInvariant_preserved (Borrow (lit "A0001") 1000 1000 1000)
           catalogue2).
  - split; [|split].
    + simpl. constructor; [intros [] | constructor].
    + intros b [<-|[]]. vm_compute. repeat split; discriminate.
    + intros l [].
  - simpl. exact I.
Defined.

(** ** Statistics *)

Lemma fold_left_sum {A} (f : A -> Z) (l : list A) (a : Z) :
  fold_left (fun sum x => sum + f x) l a = a + sumZ (List.map f l).
Proof.
  revert a. induction l as [|x r IH]; intros a; simpl; [lia|].
  rewrite IH. lia.
Qed.

Lemma sumZ_map_add {A} (f g : A -> Z) (l : list A) :
  sumZ (List.map (fun x => f x + g x) l)
  = sumZ (List.map f l) + sumZ (List.map g l).
Proof. induction l as [|x r IH]; simpl; lia. Qed.

Lemma sumZ_map_ext {A} (f g : A -> Z) (l : list A) :
  (forall x, In x l -> f x = g x) ->
  sumZ (List.map f l) = sumZ (List.map g l).
Proof.
  intros H. induction l as [|x r IH]; simpl; [reflexivity|].
  rewrite (H x (or_introl eq_refl)), IH; [reflexivity|].
  intros y Hy. apply H. now right.
Qed.

Lemma sumZ_map_zero {A} (l : list A) : sumZ (List.map (fun _ => 0) l) = 0.
Proof. induction l as [|x r IH]; simpl; lia. Qed.

(** Among records with distinct ids, a code is the id of one record or of
    none. *)
Lemma sum_id_indicator x (bs : list Book.t) :
  NoDup (List.map Book.id bs) ->
  sumZ (List.map (fun b => if str_eqb x (Book.id b) then 1 else 0) bs)
  = if in_dec str_eq_dec x (List.map Book.id bs) then 1 else 0.
Proof.
  induction bs as [|a r IH]; [reflexivity|].
  intros Hnd. inversion Hnd as [|y l0 Hnotin Hnd']; subst.
  cbn [List.map sumZ fold_right]. fold (sumZ (List.map
    (fun b => if str_eqb x (Book.id b) then 1 else 0) r)).
  rewrite (IH Hnd').
  destruct (in_dec str_eq_dec x (Book.id a :: List.map Book.id r))
    as [Hin|Hnin];
    destruct (in_dec str_eq_dec x (List.map Book.id r)) as [Hin'|Hnin'];
    destruct (str_eqb x (Book.id a)) eqn:E; try reflexivity; exfalso.
  - apply str_eqb_eq in E. subst x. contradiction.
  - apply str_eqb_neq in E. destruct Hin as [X|X]; [congruence|contradiction].
  - apply Hnin. now right.
  - apply Hnin. now right.
  - apply str_eqb_eq in E. apply Hnin. now left.
Qed.

Lemma sum_open_loans (bs : list Book.t) (ls : list Loan.t) :
  NoDup (List.map Book.id bs) ->
  (forall l, In l ls -> Loan.returnedAt l = None ->
     In (Loan.bookId l) (List.map Book.id bs)) ->
  sumZ (List.map (fun b => openLoansFor (Book.id b) ls) bs)
  = Z.of_nat (List.length (filter Loan.isOpen ls)).
Proof.
  intros Hnd. induction ls as [|l r IH]; intros Hin.
  - unfold openLoansFor. simpl. apply sumZ_map_zero.
  - assert (Hstep : forall b,
      openLoansFor (Book.id b) (l :: r)
      = (if str_eqb (Loan.bookId l) (Book.id b)
         then (if Loan.isOpen l then 1 else 0) else 0)
        + openLoansFor (Book.id b) r).
    { intros b. unfold openLoansFor. cbn [filter].
      destruct (str_eqb (Loan.bookId l) (Book.id b)), (Loan.isOpen l);
        cbn [andb List.length]; lia. }
    rewrite (sumZ_map_ext _ _ bs (fun b _ => Hstep b)), sumZ_map_add.
    rewrite IH by (intros x Hx; apply Hin; now right).
    cbn [filter]. destruct (Loan.isOpen l) eqn:Ho.
    + rewrite (sum_id_indicator (Loan.bookId l) bs Hnd).
      destruct (in_dec str_eq_dec (Loan.bookId l) (List.map Book.id bs))
        as [_|Hn].
      * cbn [List.length]. lia.
      * exfalso. apply Hn. apply Hin; [now left|].
        unfold Loan.isOpen in Ho. now destruct (Loan.returnedAt l).
    + rewrite (sumZ_map_ext _ (fun _ => 0) bs).
      * rewrite sumZ_map_zero. lia.
      * intros b _. now destruct (str_eqb (Loan.bookId l) (Book.id b)).
Qed.

(** In a state that satisfies the state invariant the numbers of
    [updateStats] add up: the total of copies is the total of available
    copies plus the number of open loans. *)
Theorem updateStats_adds_up :
  forall s,
    stateInvariant s ->
    totalBooks (updateStats s)
    = availableBooks (updateStats s) + borrowedBooksCount (updateStats s).
Proof.
  intros s (Hnd & Hc & Hl). unfold updateStats. simpl.
  rewrite !fold_left_sum, <- (sum_open_loans _ _ Hnd Hl).
  rewrite !Z.add_0_l, <- sumZ_map_add. apply sumZ_map_ext.
  intros b Hb. destruct (Hc b Hb) as [_ E]. lia.
Qed.

(** After alice's borrow: 2 copies, 1 available, 1 on loan. *)
Lemma updateStats_adds_up_witness :
  totalBooks (updateStats afterAlice)
  = availableBooks (updateStats afterAlice)
    + borrowedBooksCount (updateStats afterAlice).
Proof.
  apply updateStats_adds_up. split; [|split].
  - simpl. constructor; [intros [] | constructor].
  - intros b [<-|[]]. vm_compute. repeat split; discriminate.
  - intros l [<-|[]] _. simpl. now left.
Defined.

(** ** One open loan per user and code *)

Lemma openLoansOf_snoc bookId user (ls : list Loan.t) (r : Loan.t) :
  openLoansOf bookId user (ls ++ [r])
  = (openLoansOf bookId user ls
     + (if str_eqb (Loan.bookId r) bookId && str_eqb (Loan.userId r) user
           && Loan.isOpen r then 1 else 0))%nat.
Proof.
  unfold openLoansOf. rewrite filter_app, length_app. simpl.
  now destruct (str_eqb (Loan.bookId r) bookId && str_eqb (Loan.userId r) user
                && Loan.isOpen r).
Qed.

Lemma openLoansOf_none bookId user (ls : list Loan.t) :
  hasOpenLoanb bookId user ls = false -> openLoansOf bookId user ls = 0%nat.
Proof.
  unfold hasOpenLoanb, openLoansOf. induction ls as [|a r IH]; simpl;
    [reflexivity|].
  destruct (str_eqb (Loan.bookId a) bookId && str_eqb (Loan.userId a) user
            && Loan.isOpen a); simpl; [discriminate | exact IH].
Qed.

Lemma openLoansOf_close i t bookId user (ls : list Loan.t) :
  (openLoansOf bookId user
     (updateFirst (fun b => str_eqb (Loan.id b) i)
        (Loan.set_returnedAt (Some t)) ls)
   <= openLoansOf bookId user ls)%nat.
Proof.
  unfold openLoansOf. induction ls as [|a r IH]; cbn [updateFirst]; [lia|].
  destruct (str_eqb (Loan.id a) i).
  - cbn [filter]. unfold Loan.set_returnedAt at 1, Loan.isOpen at 1.
    cbn [Loan.bookId Loan.userId Loan.returnedAt]. rewrite andb_false_r.
    destruct (str_eqb (Loan.bookId a) bookId && str_eqb (Loan.userId a) user
              && Loan.isOpen a); cbn [List.length]; lia.
  - cbn [filter].
    destruct (str_eqb (Loan.bookId a) bookId && str_eqb (Loan.userId a) user
              && Loan.isOpen a); cbn [List.length]; lia.
Qed.

(** If no user holds two open loans on one code, no local operation makes
    one do so: [borrowBook] refuses a second open loan of the same user on
    the same code, [returnBook] only closes loans, and the catalogue
    operations leave the ledger alone. *)
Theorem oneOpenLoanPerUser_preserved :
  forall op s,
    oneOpenLoanPerUser (borrowedBooks s) ->
    oneOpenLoanPerUser (borrowedBooks (runOp op s)).
Proof.
  intros op s Hinv.
  destruct op as [bookId tDate tId tTimer | borrowId tReturn tTimer
                 | i t y c tTimer | i t y c | bookId confirmed | csv];
    simpl.
  - unfold borrowBook.
    destruct (currentUser s) as [u|]; [|exact Hinv].
    destruct (str_eqb (role u) (lit "guest") && negb (guestBorrow (settings s)));
      [exact Hinv|].
    destruct (find (hasId bookId) (books s)) as [book|]; [|exact Hinv].
    destruct (Book.availableCopies book <=? 0); [exact Hinv|].
    destruct (existsb _ (borrowedBooks s)) eqn:Hex; [exact Hinv|].
    simpl. intros b' u'. rewrite openLoansOf_snoc. simpl.
    destruct (str_eqb bookId b') eqn:Eb; simpl; [|specialize (Hinv b' u'); lia].
    destruct (str_eqb (username u) u') eqn:Eu; simpl;
      [|specialize (Hinv b' u'); lia].
    apply str_eqb_eq in Eb, Eu. subst b' u'.
    rewrite (openLoansOf_none bookId (username u) (borrowedBooks s) Hex). lia.
  - unfold returnBook.
    destruct (find _ (borrowedBooks s)) as [l|]; [|exact Hinv].
    destruct (Loan.isOpen l); [|exact Hinv].
    simpl. intros b' u'.
    pose proof (openLoansOf_close borrowId tReturn b' u' (borrowedBooks s)).
    specialize (Hinv b' u'). lia.
  - unfold handleAddBook.
    destruct (testBookId (trim i)); [|exact Hinv].
    destruct (existsb (hasId (trim i)) (books s)); [exact Hinv|].
    destruct (nonEmpty (trim t)); exact Hinv.
  - unfold handleEditBook.
    destruct (isAdminUser s); [|exact Hinv].
    destruct (nonEmpty (trim i)); [|exact Hinv].
    destruct (nonEmpty (trim t)); [|exact Hinv].
    destruct (find (hasId (trim i)) (books s)); [|exact Hinv].
    destruct (parseIntOr c 1 <? openLoansFor (trim i) (borrowedBooks s));
      exact Hinv.
  - unfold deleteBook.
    destruct (isAdminUser s); [|exact Hinv].
    destruct (find (hasId bookId) (books s)); [|exact Hinv].
    destruct (0 <? openLoansFor bookId (borrowedBooks s)); [exact Hinv|].
    destruct confirmed; exact Hinv.
  - exact Hinv.
Qed.

(** Bob's borrow after alice's keeps the property. *)
Lemma oneOpenLoanPerUser_preserved_witness :
  oneOpenLoanPerUser (borrowedBooks afterBob).
Proof.
  apply (oneOpenLoanPerUser_preserved (Borrow (lit "A0001") 2000 2000 2000)
           (asUser bob afterAlice)).
  intros b u. unfold openLoansOf. simpl.
  match goal with |- context [if ?c then _ else _] => destruct c end;
    simpl; lia.
Defined.

(** ** Returning *)

(** A loan is returned once: after [returnBook(id)] has succeeded, a
    second [returnBook(id)] reports that the book was already returned and
    changes nothing, so the copy count is not raised twice. *)
Theorem returnBook_twice :
  forall borrowId tReturn tTimer tReturn' tTimer' s s1,
    returnBook borrowId tReturn tTimer s = (s1, [ReturnSucceeded]) ->
    returnBook borrowId tReturn' tTimer' s1 = (s1, [AlreadyReturned]).
Proof.
  intros borrowId tReturn tTimer tReturn' tTimer' s s1. unfold returnBook at 1.
  destruct (find _ (borrowedBooks s)) as [l|] eqn:Hf; [|discriminate].
  destruct (Loan.isOpen l); [|discriminate].
  simpl. intros [= <-]. unfold returnBook. cbn [borrowedBooks scheduleAutoSync].
  cbn [set_books set_borrowedBooks borrowedBooks].
  rewrite find_updateFirst by (intros x Hx; exact Hx).
  rewrite Hf. reflexivity.
Qed.

(** Bob returns his copy; the second attempt is turned down. *)
Lemma returnBook_twice_witness :
  returnBook (toString 2000) 2600 2600
    (fst (returnBook (toString 2000) 2500 2500 afterBob))
  = (fst (returnBook (toString 2000) 2500 2500 afterBob), [AlreadyReturned]).
Proof.
  apply (returnBook_twice (toString 2000) 2500 2500 2600 2600 afterBob).
  reflexivity.
Defined.

(** ** The borrow button *)

(** For the record that [books.find] returns for its own id, the card
    shows an enabled borrow button exactly when [borrowBook] on that id
    succeeds. *)
Theorem borrowButton_iff_borrow_succeeds :
  forall book tDate tId tTimer s,
    find (hasId (Book.id book)) (books s) = Some book ->
    borrowButtonEnabled book s = true
    <-> snd (borrowBook (Book.id book) tDate tId tTimer s) = [BorrowSucceeded].
Proof.
  intros book tDate tId tTimer s Hf.
  unfold borrowButtonEnabled, canBorrow, isBorrowed, borrowBook.
  destruct (currentUser s) as [u|]; [|simpl; split; discriminate].
  rewrite Hf.
  destruct (str_eqb (role u) (lit "guest")), (guestBorrow (settings s));
    simpl; try (split; discriminate).
  all: rewrite Z.leb_antisym;
    destruct (0 <? Book.availableCopies book); simpl;
      [|split; discriminate];
    destruct (existsb _ (borrowedBooks s)); simpl;
      split; (discriminate || reflexivity).
Qed.

(** Alice sees the button on the two-copy catalogue and can borrow. *)
Lemma borrowButton_iff_borrow_succeeds_witness :
  borrowButtonEnabled (bookT 2 2) catalogue2 = true
  /\ borrowButtonEnabled (bookT 2 1) afterAlice = false.
Proof.
  split.
  - apply (borrowButton_iff_borrow_succeeds (bookT 2 2) 1000 1000 1000
             catalogue2); reflexivity.
  - destruct (borrowButtonEnabled (bookT 2 1) afterAlice) eqn:E;
      [|reflexivity].
    apply (borrowButton_iff_borrow_succeeds (bookT 2 1) 1500 1500 1500
             afterAlice) in E; [discriminate E | reflexivity].
Defined.

(** ** Deleting and editing *)

Lemma filter_other_ids i (bs : list Book.t) :
  existsb (hasId i) bs = false ->
  filter (fun b => negb (hasId i b)) bs = bs.
Proof.
  induction bs as [|a r IH]; simpl; [reflexivity|].
  destruct (hasId i a); simpl; [discriminate|]. intros H. now rewrite IH.
Qed.

(** When [deleteBook] reports success, the caller is the administrator,
    the code had no open loan, no record with the code is left, every other
    record is kept, and the ledger is untouched. *)
Theorem deleteBook_success :
  forall bookId confirmed s s',
    deleteBook bookId confirmed s = (s', [DeleteSucceeded]) ->
    isAdminUser s = true
    /\ openLoansFor bookId (borrowedBooks s) = 0
    /\ find (hasId bookId) (books s') = None
    /\ (forall b, In b (books s') <-> In b (books s) /\ Book.id b <> bookId)
    /\ borrowedBooks s' = borrowedBooks s.
Proof.
  intros bookId confirmed s s'. unfold deleteBook.
  destruct (isAdminUser s); [|discriminate].
  destruct (find (hasId bookId) (books s)); [|discriminate].
  destruct (0 <? openLoansFor bookId (borrowedBooks s)) eqn:Ho; [discriminate|].
  destruct confirmed; [|discriminate].
  simpl. intros [= <-]. simpl.
  apply Z.ltb_ge in Ho. pose proof (openLoansFor_nonneg bookId (borrowedBooks s)).
  repeat split; try lia.
  - apply find_none_forall. intros x Hx. apply filter_In in Hx as [_ Hx].
    now apply negb_true_iff in Hx.
  - apply filter_In in H0. tauto.
  - apply filter_In in H0 as [_ Hx]. apply negb_true_iff in Hx.
    now apply str_eqb_neq in Hx.
  - intros [Hin Hne]. apply filter_In. split; [exact Hin|].
    apply negb_true_iff. now apply str_eqb_neq.
Qed.

(** The administrator deletes the only record of a catalogue without
    loans. *)
Lemma deleteBook_success_witness :
  books (fst (deleteBook (lit "A0001") true (asUser admin catalogue2))) = [].
Proof.
  destruct (deleteBook_success (lit "A0001") true (asUser admin catalogue2)
              (fst (deleteBook (lit "A0001") true (asUser admin catalogue2)))
              eq_refl) as (_ & _ & _ & H & _).
  destruct (books (fst (deleteBook (lit "A0001") true
                          (asUser admin catalogue2)))) as [|b r] eqn:E;
    [reflexivity|].
  destruct (proj1 (H b) (or_introl eq_refl)) as [[<-|[]] Hne].
  now contradiction Hne.
Defined.

(** Adding a book and deleting it again gives the catalogue back: after a
    successful [handleAddBook], the administrator's confirmed [deleteBook]
    of the new code succeeds, provided no open loan is recorded on that
    code, and [books] is what it was before the add. *)
Theorem add_then_delete :
  forall idValue titleValue yearValue copiesValue tTimer s s1,
    handleAddBook idValue titleValue yearValue copiesValue tTimer s
      = (s1, [AddSucceeded]) ->
    isAdminUser s = true ->
    openLoansFor (trim idValue) (borrowedBooks s) = 0 ->
    snd (deleteBook (trim idValue) true s1) = [DeleteSucceeded]
    /\ books (fst (deleteBook (trim idValue) true s1)) = books s.
Proof.
  intros i t y c tTimer s s1. unfold handleAddBook.
  destruct (testBookId (trim i)); [|discriminate].
  destruct (existsb (hasId (trim i)) (books s)) eqn:Hfresh; [discriminate|].
  destruct (nonEmpty (trim t)); [|discriminate].
  simpl. intros [= <-] Hadmin Hopen.
  set (newBook := Book.mk (trim i) None (trim t) (getGenreFromId (trim i))
                    (parseIntOr y (defaultYear (settings s)))
                    (parseIntOr c (defaultCopies (settings s)))
                    (parseIntOr c (defaultCopies (settings s)))).
  assert (Hself : hasId (trim i) newBook = true) by apply str_eqb_refl.
  assert (Hnone : find (hasId (trim i)) (books s) = None).
  { apply find_none_forall. intros x Hx.
    destruct (hasId (trim i) x) eqn:E; [|reflexivity].
    assert (existsb (hasId (trim i)) (books s) = true)
      by (apply existsb_exists; now exists x).
    congruence. }
  unfold deleteBook.
  change (isAdminUser (scheduleAutoSync tTimer
                         (set_books (books s ++ [newBook]) s)))
    with (isAdminUser s).
  rewrite Hadmin.
  change (books (scheduleAutoSync tTimer (set_books (books s ++ [newBook]) s)))
    with (books s ++ [newBook]).
  change (borrowedBooks
            (scheduleAutoSync tTimer (set_books (books s ++ [newBook]) s)))
    with (borrowedBooks s).
  rewrite find_app_none by exact Hnone.
  cbn [find negb]. rewrite Hself, Hopen. cbn [Z.ltb Z.compare negb fst snd].
  split; [reflexivity|].
  cbn [books set_books].
  rewrite filter_app, (filter_other_ids _ _ Hfresh). cbn [filter].
  rewrite Hself. cbn [negb]. apply app_nil_r.
Qed.

(** The administrator adds B0001 to the two-copy catalogue and deletes
    it. *)
Lemma add_then_delete_witness :
  books (fst (deleteBook (lit "B0001") true
                (fst (handleAddBook (lit " B0001") (lit "U") (lit "") (lit "3")
                        0 (asUser admin catalogue2)))))
  = books catalogue2.
Proof.
  apply (add_then_delete (lit " B0001") (lit "U") (lit "") (lit "3") 0
           (asUser admin catalogue2)
           (fst (handleAddBook (lit " B0001") (lit "U") (lit "") (lit "3")
                   0 (asUser admin catalogue2)))); reflexivity.
Defined.

(** A successful edit sets the record right: whatever its counts were, the
    record found for the code ends with the copies entered, of which those
    not on open loan are available, so [0 <= availableCopies <= copies]
    holds for it afterwards; its id is kept, and if it has a [bookIds]
    array the array contains the id. *)
Theorem handleEditBook_success :
  forall originalIdValue titleValue yearValue copiesValue s s',
    handleEditBook originalIdValue titleValue yearValue copiesValue s
      = (s', [EditSucceeded]) ->
    exists b,
      find (hasId (trim originalIdValue)) (books s') = Some b
      /\ Book.id b = trim originalIdValue
      /\ Book.title b = trim titleValue
      /\ Book.copies b = parseIntOr copiesValue 1
      /\ Book.availableCopies b
         = Book.copies b
           - openLoansFor (trim originalIdValue) (borrowedBooks s')
      /\ 0 <= Book.availableCopies b <= Book.copies b
      /\ (forall l, Book.bookIds b = Some l -> In (Book.id b) l)
      /\ borrowedBooks s' = borrowedBooks s
      /\ List.map Book.id (books s') = List.map Book.id (books s).
Proof.
  intros i t y c s s'. unfold handleEditBook.
  destruct (isAdminUser s); [|discriminate].
  destruct (nonEmpty (trim i)); [|discriminate].
  destruct (nonEmpty (trim t)); [|discriminate].
  destruct (find (hasId (trim i)) (books s)) as [b0|] eqn:Hf; [|discriminate].
  destruct (parseIntOr c 1 <? openLoansFor (trim i) (borrowedBooks s)) eqn:Hc;
    [discriminate|].
  simpl. intros [= <-]. cbn [books borrowedBooks set_books].
  apply Z.ltb_ge in Hc.
  pose proof (openLoansFor_nonneg (trim i) (borrowedBooks s)) as Hn.
  pose proof (find_some _ _ Hf) as [_ Hid]. apply hasId_eq in Hid.
  eexists. split.
  - rewrite find_updateFirst by (intros x Hx; exact Hx). rewrite Hf.
    reflexivity.
  - cbn [editRecord Book.id Book.title Book.copies Book.availableCopies
         Book.bookIds].
    repeat split; try lia; try assumption.
    + intros l. destruct (Book.bookIds b0) as [l0|]; [|discriminate].
      destruct (includes (Book.id b0) l0) eqn:Hi; intros [= <-].
      * unfold includes in Hi. apply existsb_exists in Hi as [x [Hx E]].
        apply str_eqb_eq in E. now subst x.
      * now left.
    + now apply ids_updateFirst.
Qed.

(** The administrator sets the borrowed title to three copies: two are
    available while alice holds one. *)
Lemma handleEditBook_success_witness :
  availableOf (lit "A0001")
    (books (fst (handleEditBook (lit "A0001") (lit "T") (lit "2024") (lit "3")
                   (asUser admin afterAlice))))
  = Some 2.
Proof.
  destruct (handleEditBook_success (lit "A0001") (lit "T") (lit "2024")
              (lit "3") (asUser admin afterAlice)
              (fst (handleEditBook (lit "A0001") (lit "T") (lit "2024")
                      (lit "3") (asUser admin afterAlice))) eq_refl)
    as (b & Hf & _ & _ & Hc & Ha & _).
  change (trim (lit "A0001")) with (lit "A0001") in Hf, Ha.
  unfold availableOf. rewrite Hf. simpl. rewrite Ha, Hc. reflexivity.
Defined.

(** ** Spreadsheet import: what it adds *)

(** The row of the witness: its code is the id of the catalogue's record. *)
Lemma importRow_rejects_existing_id_witness :
  fst (importRow defaultSettings 1 [CStr (lit "A0001"); CStr (lit "X")]
         (books catalogue2, mkAcc [] 0 0 []))
  = books catalogue2.
Proof.
  apply (importRow_rejects_existing_id defaultSettings 1
           [CStr (lit "A0001"); CStr (lit "X")] (books catalogue2)
           (mkAcc [] 0 0 [])); reflexivity.
Defined.

Lemma importRow_step st i row bs acc :
  let out := importRow st i row (bs, acc) in
  (fst out = bs
   /\ successCount (snd out) = successCount acc
   /\ ((errorCount (snd out) = errorCount acc
        /\ errors (snd out) = errors acc)
       \/ (errorCount (snd out) = errorCount acc + 1
           /\ exists e, errors (snd out) = errors acc ++ [e])))
  \/ (exists b,
        fst out = bs ++ [b]
        /\ successCount (snd out) = successCount acc + 1
        /\ errorCount (snd out) = errorCount acc
        /\ errors (snd out) = errors acc
        /\ sheetRecord st b
        /\ existsb (hasId (Book.id b)) bs = false).
Proof.
  unfold importRow.
  destruct (cellTruthy (cellAt row 0)); cbn [negb];
    [|left; repeat split; left; now split].
  destruct (testBookId (trim (cellToString (cellAt row 0)))) eqn:Hv; cbn [negb];
    [|left; simpl; repeat split; right; split; [reflexivity | now eexists]].
  destruct (existsb (hasId (trim (cellToString (cellAt row 0)))) bs) eqn:Hd;
    [left; simpl; repeat split; right; split; [reflexivity | now eexists]|].
  destruct (cellTruthy (cellAt row 1)); cbn [negb nonEmpty];
    [|left; simpl; repeat split; right; split; [reflexivity | now eexists]].
  destruct (nonEmpty (trim (cellToString (cellAt row 1)))) eqn:Ht; cbn [negb];
    [|left; simpl; repeat split; right; split; [reflexivity | now eexists]].
  right. eexists. simpl. repeat split; try assumption.
  intros E. simpl in E. rewrite E in Ht. discriminate.
Qed.

Lemma importLoop_adds st rows :
  forall i bs acc,
    let out := importLoop st i rows (bs, acc) in
    exists new,
      fst out = bs ++ new
      /\ successCount (snd out) = successCount acc + Z.of_nat (List.length new)
      /\ errorCount (snd out) - errorCount acc
         = Z.of_nat (List.length (errors (snd out)))
           - Z.of_nat (List.length (errors acc))
      /\ successCount (snd out) + errorCount (snd out)
         <= successCount acc + errorCount acc + Z.of_nat (List.length rows)
      /\ Forall (sheetRecord st) new
      /\ (NoDup (List.map Book.id bs) -> NoDup (List.map Book.id (fst out))).
Proof.
  induction rows as [|row rest IH]; intros i bs acc.
  - exists []. simpl. rewrite app_nil_r. repeat split; try lia; auto.
  - cbn [importLoop].
    pose proof (importRow_step st i row bs acc) as Hstep. cbv zeta in Hstep.
    destruct (importRow st i row (bs, acc)) as [bs1 acc1]. simpl in Hstep.
    specialize (IH (i + 1) bs1 acc1). cbv zeta in IH.
    destruct IH as (new & Hb & Hs & He & Hle & Hall & Hnd).
    destruct Hstep as [(-> & Hs1 & Herr) | (b & -> & Hs1 & He1 & Hes1 & Hrec & Hfresh)].
    + exists new. cbn [List.length]. repeat split; trivial; try lia.
      destruct Herr as [[E1 E2] | [E1 [e E2]]].
      * rewrite E2 in He. lia.
      * rewrite E2, length_app in He. simpl in He. lia.
    + exists (b :: new). cbn [List.length].
      repeat split; trivial; try lia.
      * rewrite Hb, <- app_assoc. reflexivity.
      * rewrite Hes1 in He. lia.
      * now constructor.
      * intros Hbs. apply Hnd.
        rewrite map_app. simpl. apply NoDup_app; [exact Hbs | | ].
        -- constructor; [intros [] | constructor].
        -- intros x Hx [<-|[]]. apply in_map_iff in Hx as [y [Hy Hyin]].
           assert (existsb (hasId (Book.id b)) bs = true).
           { apply existsb_exists. exists y. split; [exact Hyin|].
             now apply hasId_eq. }
           congruence.
Qed.

(** [processImportData] only adds: the records of the catalogue stay in
    front, in order and unchanged, and the ledger is not touched.  The
    records added are as many as [successCount], the error entries as many
    as [errorCount], and together they are at most the rows after the
    header.  Every record added has a valid code, a title, all its copies
    available and the default year; and if the ids of the catalogue were
    distinct they still are. *)
Theorem processImportData_adds :
  forall data s,
    let out := fst (processImportData data s) in
    exists new,
      books (fst out) = books s ++ new
      /\ borrowedBooks (fst out) = borrowedBooks s
      /\ successCount (snd out) = Z.of_nat (List.length new)
      /\ errorCount (snd out) = Z.of_nat (List.length (errors (snd out)))
      /\ successCount (snd out) + errorCount (snd out)
         <= Z.of_nat (List.length (tl data))
      /\ Forall (sheetRecord (settings s)) new
      /\ (NoDup (List.map Book.id (books s)) ->
          NoDup (List.map Book.id (books (fst out)))).
Proof.
  intros data s out. subst out. unfold processImportData.
  pose proof (importLoop_adds (settings s) (tl data) 1 (books s)
                (mkAcc [] 0 0 [])) as H. cbv zeta in H.
  destruct (importLoop (settings s) 1 (tl data) (books s, mkAcc [] 0 0 []))
    as [bs acc]. simpl in H. destruct H as (new & Hb & Hs & He & Hle & Hall & Hnd).
  exists new. simpl. repeat split; trivial; lia.
Qed.

(** ** CSV import: what it builds *)

Lemma Forall_updateFirst {A} (Q : A -> Prop) (p : A -> bool) (f : A -> A)
    (l : list A) (e : A) :
  Forall Q l -> find p l = Some e -> Q (f e) ->
  Forall Q (updateFirst p f l).
Proof.
  intros Hl. induction Hl as [|x r Hx Hr IH]; simpl; [discriminate|].
  destruct (p x).
  - intros [= ->] Hq. now constructor.
  - intros Hf Hq. constructor; auto.
Qed.

Lemma map_fst_updateFirst {K V} (p : K * V -> bool) (f : V -> V)
    (m : list (K * V)) :
  List.map fst (updateFirst p (fun e => (fst e, f (snd e))) m) = List.map fst m.
Proof.
  induction m as [|e r IH]; simpl; [reflexivity|].
  destruct (p e); simpl; [reflexivity | now rewrite IH].
Qed.

Lemma sumZ_updateFirst {A} (g : A -> Z) (p : A -> bool) (f : A -> A)
    (l : list A) (e : A) :
  find p l = Some e ->
  sumZ (List.map g (updateFirst p f l)) = sumZ (List.map g l) - g e + g (f e).
Proof.
  induction l as [|x r IH]; simpl; [discriminate|].
  destruct (p x); simpl.
  - intros [= ->]. lia.
  - intros H. rewrite (IH H). lia.
Qed.

Lemma sumZ_app (l l' : list Z) : sumZ (l ++ l') = sumZ l + sumZ l'.
Proof. induction l as [|x r IH]; simpl; lia. Qed.

Lemma includes_false (x : jsstring) (l : list jsstring) :
  includes x l = false -> ~ In x l.
Proof.
  unfold includes. intros H Hin.
  assert (existsb (str_eqb x) l = true)
    by (apply existsb_exists; exists x; split; [exact Hin | apply str_eqb_refl]).
  congruence.
Qed.

Lemma csvRecord_merge st (id : jsstring) (b : Book.t) :
  csvRecord st b ->
  testBookId id = true ->
  includes id (bookIdsOf b) = false ->
  csvRecord st (mergeCopy id csvCopiesPerRow b).
Proof.
  intros (Ht & others & Hids & Hvalid & Hnd & Hc & Ha & Hy & Hg) Hv Hinc.
  unfold bookIdsOf in Hinc. unfold mergeCopy, bookIdsOf. rewrite Hids in *.
  apply includes_false in Hinc.
  split; [exact Ht|]. exists (others ++ [id]). cbn [Book.id Book.bookIds
    Book.copies Book.availableCopies Book.year Book.genre].
  repeat split; trivial.
  - change (Book.id b :: others ++ [id]) with ((Book.id b :: others) ++ [id]).
    apply Forall_app. split; [exact Hvalid | now constructor].
  - change (Book.id b :: others ++ [id]) with ((Book.id b :: others) ++ [id]).
    apply NoDup_app; [exact Hnd | | ].
    + constructor; [intros [] | constructor].
    + intros x Hx [<-|[]]. contradiction.
  - rewrite Hc. cbn [List.length]. rewrite length_app. simpl.
    unfold csvCopiesPerRow. lia.
  - rewrite Ha, Hc. reflexivity.
Qed.

Lemma csvRow_keeps st i row acc :
  csvMapOk st (bookMap acc) ->
  let acc' := csvRow st i row acc in
  csvMapOk st (bookMap acc')
  /\ successCount acc' - successCount acc
     = sumZ (List.map (fun e => Book.copies (snd e)) (bookMap acc'))
       - sumZ (List.map (fun e => Book.copies (snd e)) (bookMap acc))
  /\ errorCount acc' - errorCount acc
     = Z.of_nat (List.length (errors acc'))
       - Z.of_nat (List.length (errors acc))
  /\ 0 <= successCount acc' - successCount acc
  /\ 0 <= errorCount acc' - errorCount acc
  /\ (successCount acc' + errorCount acc')
     - (successCount acc + errorCount acc) <= 1.
Proof.
  intros [Hnd Hall]. unfold csvRow.
  destruct row as [|c0 rest]; [repeat split; trivial; lia|].
  set (title := match nth_error (c0 :: rest) 1 with
                | Some c1 => if nonEmpty c1 then trim c1 else []
                | None => []
                end).
  destruct (nonEmpty c0); cbn [negb]; cbv iota;
    [|repeat split; trivial; lia].
  destruct (testBookId (trim c0)) eqn:Hv; cbn [negb]; cbv iota.
  2:{ cbv zeta. cbn [bookMap successCount errorCount errors].
      rewrite length_app. simpl. repeat split; trivial; lia. }
  destruct (nonEmpty title) eqn:Ht; cbn [negb]; cbv iota;
    [|repeat split; trivial; lia].
  assert (Htitle : title <> []) by (intros E; rewrite E in Ht; discriminate).
  destruct (mapHas title (bookMap acc)) eqn:Hhas.
  - destruct (mapHas_true _ _ Hhas) as [[k b] Hfind].
    assert (Hget : mapGet title (bookMap acc) = Some b)
      by (unfold mapGet; now rewrite Hfind).
    rewrite Hget. cbn [andb].
    destruct (includes (trim c0) (bookIdsOf b)) eqn:Hinc.
    + cbv zeta. cbn [bookMap successCount errorCount errors].
      rewrite length_app. simpl. repeat split; trivial; lia.
    + cbv zeta. cbn [bookMap successCount errorCount errors].
      rewrite (sumZ_updateFirst (fun e => Book.copies (snd e)) _ _ _ _ Hfind).
      cbn [snd fst mergeCopy Book.copies]. unfold csvCopiesPerRow.
      repeat split; try lia.
      * now rewrite map_fst_updateFirst.
      * apply (Forall_updateFirst _ _ _ _ (k, b) Hall Hfind).
        pose proof (find_some _ _ Hfind) as [Hin _].
        rewrite Forall_forall in Hall. destruct (Hall _ Hin) as [Hkt Hrec].
        cbn [fst snd] in *. split; [exact Hkt|].
        now apply csvRecord_merge.
  - cbn [andb]. cbv iota zeta. cbn [bookMap successCount errorCount errors].
    rewrite map_app, sumZ_app. cbn [List.map sumZ fold_right snd Book.copies].
    unfold csvCopiesPerRow. repeat split; try lia.
    + rewrite map_app. cbn [List.map fst]. apply NoDup_app; [exact Hnd | | ].
      * constructor; [intros [] | constructor].
      * intros x Hx [<-|[]]. apply in_map_iff in Hx as [e [He Hin]].
        pose proof (mapHas_false _ _ Hhas) as Hnone.
        pose proof (find_none _ _ Hnone e Hin) as Hf. cbn beta in Hf.
        rewrite He, str_eqb_refl in Hf. discriminate.
    + apply Forall_app. split; [exact Hall|]. constructor; [|constructor].
      cbn [fst snd Book.title]. split; [reflexivity|].
      split; [exact Htitle|]. exists []. cbn [Book.id Book.bookIds
        Book.copies Book.availableCopies Book.year Book.genre List.length].
      repeat split; trivial.
      * constructor; [exact Hv | constructor].
      * constructor; [intros [] | constructor].
Qed.

Lemma csvLoop_keeps st rows :
  forall i acc,
    csvMapOk st (bookMap acc) ->
    let acc' := csvLoop st i rows acc in
    csvMapOk st (bookMap acc')
    /\ successCount acc' - successCount acc
       = sumZ (List.map (fun e => Book.copies (snd e)) (bookMap acc'))
         - sumZ (List.map (fun e => Book.copies (snd e)) (bookMap acc))
    /\ errorCount acc' - errorCount acc
       = Z.of_nat (List.length (errors acc'))
         - Z.of_nat (List.length (errors acc))
    /\ 0 <= successCount acc' - successCount acc
    /\ 0 <= errorCount acc' - errorCount acc
    /\ (successCount acc' + errorCount acc')
       - (successCount acc + errorCount acc) <= Z.of_nat (List.length rows).
Proof.
  induction rows as [|row rest IH]; intros i acc Hok.
  - simpl. split; [exact Hok|]. repeat split; lia.
  - cbn [csvLoop].
    destruct (csvRow_keeps st i row acc Hok) as (Hok1 & Hs1 & He1 & H1 & H2 & H3).
    destruct (IH (i + 1) (csvRow st i row acc) Hok1)
      as (Hok2 & Hs2 & He2 & H4 & H5 & H6).
    cbv zeta in *. cbn [List.length]. split; [exact Hok2|].
    repeat split; lia.
Qed.

(** What [processCSVData] leaves in the catalogue, whatever the rows and
    whatever was there before: one record per title; each record has its
    first code as id, [bookIds] listing valid codes without repetition, one
    copy per code and every copy available.  The copies of the catalogue
    add up to [successCount], the error entries are as many as
    [errorCount], and the two counts together do not exceed the number of
    rows.  The previous catalogue has no influence on the result, and the
    ledger is not touched. *)
Theorem processCSVData_shape :
  forall csvData s,
    let out := processCSVData csvData s in
    NoDup (List.map Book.title (books (fst out)))
    /\ Forall (csvRecord (settings s)) (books (fst out))
    /\ sumZ (List.map Book.copies (books (fst out))) = successCount (snd out)
    /\ errorCount (snd out) = Z.of_nat (List.length (errors (snd out)))
    /\ 0 <= successCount (snd out)
    /\ successCount (snd out) + errorCount (snd out)
       <= Z.of_nat (List.length csvData)
    /\ borrowedBooks (fst out) = borrowedBooks s
    /\ forall bs, books (fst (processCSVData csvData (set_books bs s)))
                  = books (fst out).
Proof.
  intros csvData s out. subst out. unfold processCSVData.
  assert (H0 : csvMapOk (settings s) (bookMap (mkAcc [] 0 0 [])))
    by (split; constructor).
  destruct (csvLoop_keeps (settings s) csvData 0 (mkAcc [] 0 0 []) H0)
    as ([Hnd Hall] & Hs & He & H1 & H2 & H3).
  cbv zeta in *. cbn [bookMap successCount errorCount errors List.map sumZ
                      fold_right List.length] in *.
  set (acc := csvLoop (settings s) 0 csvData (mkAcc [] 0 0 [])) in *.
  cbn [fst snd books borrowedBooks set_books app].
  assert (Htitles : List.map Book.title (List.map snd (bookMap acc))
                    = List.map fst (bookMap acc)).
  { rewrite map_map. apply map_ext_in. intros e He'.
    rewrite Forall_forall in Hall. now destruct (Hall e He'). }
  repeat split; try lia.
  - now rewrite Htitles.
  - apply Forall_forall. intros b Hb. apply in_map_iff in Hb as [e [<- Hin]].
    rewrite Forall_forall in Hall. now destruct (Hall e Hin).
  - rewrite map_map. lia.
Qed.

(** ** Automatic push: throttling *)

Lemma autoPush_sent now res tCatch s :
  pushCount (autoPushToGoogleSheets now res tCatch s) <> pushCount s ->
  autoSyncLastRunAt (autoPushToGoogleSheets now res tCatch s) = now.
Proof.
  unfold autoPushToGoogleSheets, pushToGoogleSheets.
  destruct (getGoogleWebAppUrl s) as [url|] eqn:Hu; [|now intros H].
  destruct (now <? autoSyncCooldownUntil s); [now intros H|].
  destruct (now - autoSyncLastRunAt s <? autoSyncMinIntervalMs);
    [now intros H|].
  assert (Hu' : getGoogleWebAppUrl (set_autoSyncLastRunAt now s) = Some url)
    by exact Hu.
  rewrite Hu'. intros _.
  destruct res as [|ok result]; [reflexivity|].
  destruct ok; [|reflexivity].
  destruct result as [body|]; [destruct (bodyOk body)|]; reflexivity.
Qed.

(** After an automatic push has sent a request at clock reading [now], an
    automatic push less than the minimum interval (30 s) later sends
    nothing and changes nothing, whatever the first request's outcome. *)
Theorem autoPush_min_interval :
  forall now res tCatch s now' res' tCatch',
    pushCount (autoPushToGoogleSheets now res tCatch s) <> pushCount s ->
    now' - now < autoSyncMinIntervalMs ->
    autoPushToGoogleSheets now' res' tCatch'
      (autoPushToGoogleSheets now res tCatch s)
    = autoPushToGoogleSheets now res tCatch s.
Proof.
  intros now res tCatch s now' res' tCatch' Hsent Hlt.
  pose proof (autoPush_sent now res tCatch s Hsent) as Hlast.
  set (s1 := autoPushToGoogleSheets now res tCatch s) in *.
  unfold autoPushToGoogleSheets.
  destruct (getGoogleWebAppUrl s1); [|reflexivity].
  destruct (now' <? autoSyncCooldownUntil s1); [reflexivity|].
  rewrite Hlast. apply Z.ltb_lt in Hlt. now rewrite Hlt.
Qed.

(** A push at 100000 that succeeds, and another 29.999 s later. *)
Lemma autoPush_min_interval_witness :
  pushCount
    (autoPushToGoogleSheets 129999 (FetchResponse true None) 0
       (autoPushToGoogleSheets 100000 (FetchResponse true None) 0 catalogue2))
  = 1%nat.
Proof.
  rewrite (autoPush_min_interval 100000 (FetchResponse true None) 0 catalogue2
             129999 (FetchResponse true None) 0).
  - reflexivity.
  - vm_compute. discriminate.
  - reflexivity.
Defined.

(** After an automatic push whose [fetch] was rejected, every automatic
    push before the clock reading of the failure plus 60 s sends nothing
    and changes nothing. *)
Theorem autoPush_backoff :
  forall now tCatch s url now' res' tCatch',
    getGoogleWebAppUrl s = Some url ->
    autoSyncCooldownUntil s <= now ->
    autoSyncMinIntervalMs <= now - autoSyncLastRunAt s ->
    now' < tCatch + autoSyncBackoffMs ->
    autoPushToGoogleSheets now' res' tCatch'
      (autoPushToGoogleSheets now FetchRejected tCatch s)
    = autoPushToGoogleSheets now FetchRejected tCatch s.
Proof.
  intros now tCatch s url now' res' tCatch' Hu Hc Hi Hlt.
  apply autoPush_skipped_in_cooldown.
  destruct (autoPush_transport_failure_sets_cooldown now tCatch s url Hu Hc Hi)
    as [E _].
  rewrite E. exact Hlt.
Qed.

(** The fetch of the push at 100000 is rejected at 100100; the push at
    160099 is still suppressed. *)
Lemma autoPush_backoff_witness :
  pushCount
    (autoPushToGoogleSheets 160099 (FetchResponse true None) 0
       (autoPushToGoogleSheets 100000 FetchRejected 100100 catalogue2))
  = 1%nat.
Proof.
  rewrite (autoPush_backoff 100000 100100 catalogue2
             (lit "https://example.org/exec") 160099
             (FetchResponse true None) 0);
    try reflexivity; vm_compute; discriminate.
Defined.

(** ** Push and pull leave the data whole *)

(** A push, manual or automatic, never changes the catalogue or the
    ledger.  It sends at most one request, which carries the two
    collections as they are; without a sync URL it sends none. *)
Theorem push_reads_only :
  forall silent now res tCatch s,
    let s1 := fst (fst (pushToGoogleSheets silent res s)) in
    let s2 := autoPushToGoogleSheets now res tCatch s in
    (books s1 = books s /\ borrowedBooks s1 = borrowedBooks s
     /\ (requests s1 = requests s
         \/ requests s1
            = PushRequest (books s) (borrowedBooks s) :: requests s))
    /\ (books s2 = books s /\ borrowedBooks s2 = borrowedBooks s
        /\ (requests s2 = requests s
            \/ requests s2
               = PushRequest (books s) (borrowedBooks s) :: requests s))
    /\ (getGoogleWebAppUrl s = None ->
        requests s1 = requests s /\ requests s2 = requests s).
Proof.
  intros silent now res tCatch s s1 s2. subst s1 s2.
  unfold autoPushToGoogleSheets, pushToGoogleSheets.
  destruct (getGoogleWebAppUrl s) as [url|] eqn:Hu.
  - assert (Hu' : getGoogleWebAppUrl (set_autoSyncLastRunAt now s) = Some url)
      by exact Hu.
    rewrite Hu'. split; [|split; [|discriminate]].
    + destruct res as [|ok result];
        [|destruct ok; [destruct result as [body|];
                        [destruct (bodyOk body)|]|]];
        simpl; repeat split; now right.
    + destruct (now <? autoSyncCooldownUntil s);
        [repeat split; now left|].
      destruct (now - autoSyncLastRunAt s <? autoSyncMinIntervalMs);
        [repeat split; now left|].
      destruct res as [|ok result];
        [|destruct ok; [destruct result as [body|];
                        [destruct (bodyOk body)|]|]];
        simpl; repeat split; now right.
  - simpl. repeat split; now left.
Qed.

(** A pull leaves the two collections as they were or replaces both by
    the arrays of a response that arrived with a 2xx status, [ok] set and
    both arrays present: never one without the other, and never from a
    rejected or malformed response. *)
Theorem pull_all_or_nothing :
  forall opts uiValue res confirmed s,
    let s' := fst (pullFromGoogleSheets opts uiValue res confirmed s) in
    (books s' = books s /\ borrowedBooks s' = borrowedBooks s)
    \/ (exists body newBooks newLoans,
          res = FetchResponse true (Some body)
          /\ bodyOk body = true
          /\ bodyData body = Some (mkPullData (Some newBooks) (Some newLoans))
          /\ books s' = newBooks /\ borrowedBooks s' = newLoans).
Proof.
  intros opts uiValue res confirmed s s'. subst s'.
  assert (Happly : forall s0,
    books s0 = books s -> borrowedBooks s0 = borrowedBooks s ->
    let s1 := fst (applyPull opts res confirmed (add_request PullRequest s0)) in
    (books s1 = books s /\ borrowedBooks s1 = borrowedBooks s)
    \/ (exists body newBooks newLoans,
          res = FetchResponse true (Some body)
          /\ bodyOk body = true
          /\ bodyData body = Some (mkPullData (Some newBooks) (Some newLoans))
          /\ books s1 = newBooks /\ borrowedBooks s1 = newLoans)).
  { intros s0 Hb Hl. unfold applyPull.
    destruct res as [|ok result]; [now left|].
    destruct ok; [|now left].
    destruct result as [body|]; [|now left].
    destruct (bodyOk body) eqn:Hok; [|now left]. cbn [negb].
    destruct (bodyData body) as [[db dl]|] eqn:Hd; [|now left].
    cbn [dataBooks dataBorrowedBooks].
    destruct db as [nb|]; [|now left]. destruct dl as [nl|]; [|now left].
    match goal with
    | |- context [if ?c1 then _ else if ?c2 then _ else _] =>
        destruct c1; [now left|]; destruct c2; [now left|]
    end.
    right. exists body, nb, nl. repeat split; trivial. }
  unfold pullFromGoogleSheets.
  destruct (silent opts).
  - destruct (getGoogleWebAppUrl s); [|now left].
    specialize (Happly s eq_refl eq_refl). cbv zeta in Happly.
    destruct (applyPull opts res confirmed (add_request PullRequest s)).
    exact Happly.
  - unfold getGoogleWebAppUrlFromUI.
    destruct (trim uiValue) as [|c r]; [now left|].
    specialize (Happly (set_googleWebAppUrl (c :: r) s) eq_refl eq_refl).
    cbv zeta in Happly.
    destruct (applyPull opts res confirmed
                (add_request PullRequest (set_googleWebAppUrl (c :: r) s))).
    exact Happly.
Qed.

(** A pull whose request went out and whose response is well-formed
    replaces both collections by the arrays received, unless the arrays
    would empty a catalogue that is not empty and the pull is protected or
    the user declines. *)
Theorem pull_replaces :
  forall opts uiValue body newBooks newLoans confirmed s,
    let res := FetchResponse true (Some body) in
    let s' := fst (pullFromGoogleSheets opts uiValue res confirmed s) in
    requests s' = PullRequest :: requests s ->
    bodyOk body = true ->
    bodyData body = Some (mkPullData (Some newBooks) (Some newLoans)) ->
    newBooks <> [] \/ books s = []
    \/ (protectEmpty opts = false /\ confirmed = true) ->
    books s' = newBooks /\ borrowedBooks s' = newLoans.
Proof.
  intros opts uiValue body nb nl confirmed s res s'. subst res s'.
  assert (Happly : forall s0,
    books s0 = books s ->
    bodyOk body = true ->
    bodyData body = Some (mkPullData (Some nb) (Some nl)) ->
    nb <> [] \/ books s = [] \/ (protectEmpty opts = false /\ confirmed = true) ->
    let s1 := fst (applyPull opts (FetchResponse true (Some body)) confirmed
                     (add_request PullRequest s0)) in
    books s1 = nb /\ borrowedBooks s1 = nl).
  { intros s0 Hb Hok Hd Hcase. unfold applyPull. rewrite Hok, Hd.
    cbn [negb dataBooks dataBorrowedBooks books add_request]. rewrite Hb.
    destruct Hcase as [Hne | [He | [Hp Hc]]].
    - destruct nb; [contradiction|]. cbn [List.length Nat.eqb andb].
      rewrite andb_false_r. simpl. now split.
    - rewrite He. cbn [List.length Nat.ltb Nat.leb]. rewrite !andb_false_r.
      simpl. now split.
    - rewrite Hp, Hc. cbn [andb negb]. rewrite andb_false_r. simpl.
      now split. }
  unfold pullFromGoogleSheets.
  destruct (silent opts).
  - destruct (getGoogleWebAppUrl s).
    + intros _ Hok Hd Hcase.
      specialize (Happly s eq_refl Hok Hd Hcase). cbv zeta in Happly.
      destruct (applyPull opts (FetchResponse true (Some body)) confirmed
                  (add_request PullRequest s)).
      exact Happly.
    + simpl. intros Hreq. exfalso.
      apply (f_equal (@List.length Request)) in Hreq. simpl in Hreq. lia.
  - unfold getGoogleWebAppUrlFromUI.
    destruct (trim uiValue) as [|c r].
    + simpl. intros Hreq. exfalso.
      apply (f_equal (@List.length Request)) in Hreq. simpl in Hreq. lia.
    + intros _ Hok Hd Hcase.
      specialize (Happly (set_googleWebAppUrl (c :: r) s) eq_refl Hok Hd Hcase).
      cbv zeta in Happly.
      destruct (applyPull opts (FetchResponse true (Some body)) confirmed
                  (add_request PullRequest (set_googleWebAppUrl (c :: r) s))).
      exact Happly.
Qed.

(** An automatic pull brings an emptied page back to the two-copy
    catalogue. *)
Lemma pull_replaces_witness :
  books (autoPull
           (FetchResponse true
              (Some (mkBody true
                       (Some (mkPullData (Some [bookT 2 2]) (Some []))))))
           false (stateOf [] [] alice))
  = [bookT 2 2].
Proof.
  apply (pull_replaces autoPullOptions []
           (mkBody true (Some (mkPullData (Some [bookT 2 2]) (Some []))))
           [bookT 2 2] [] false (stateOf [] [] alice)).
  - reflexivity.
  - reflexivity.
  - reflexivity.
  - left. discriminate.
Defined.

(** ** At most one pending timer *)

Lemma wfTimers_ext s s' :
  timers s' = timers s -> autoSyncTimer s' = autoSyncTimer s ->
  wfTimers s -> wfTimers s'.
Proof. unfold wfTimers. intros -> ->. trivial. Qed.

Lemma runOp_wfTimers op s : wfTimers s -> wfTimers (runOp op s).
Proof.
  intros Hwf.
  destruct op as [bookId tDate tId tTimer | borrowId tReturn tTimer
                 | i t y c tTimer | i t y c | bookId confirmed | csv];
    simpl.
  - unfold borrowBook.
    destruct (currentUser s) as [u|]; [|exact Hwf].
    destruct (str_eqb (role u) (lit "guest") && negb (guestBorrow (settings s)));
      [exact Hwf|].
    destruct (find (hasId bookId) (books s)) as [book|]; [|exact Hwf].
    destruct (Book.availableCopies book <=? 0); [exact Hwf|].
    destruct (existsb _ (borrowedBooks s)); [exact Hwf|].
    simpl fst. apply scheduleAutoSync_wf.
    now apply (wfTimers_ext s).
  - unfold returnBook.
    destruct (find _ (borrowedBooks s)) as [l|]; [|exact Hwf].
    destruct (Loan.isOpen l); [|exact Hwf].
    simpl fst. apply scheduleAutoSync_wf. now apply (wfTimers_ext s).
  - unfold handleAddBook.
    destruct (testBookId (trim i)); [|exact Hwf].
    destruct (existsb (hasId (trim i)) (books s)); [exact Hwf|].
    destruct (nonEmpty (trim t)); [|exact Hwf].
    simpl fst. apply scheduleAutoSync_wf. now apply (wfTimers_ext s).
  - unfold handleEditBook.
    destruct (isAdminUser s); [|exact Hwf].
    destruct (nonEmpty (trim i)); [|exact Hwf].
    destruct (nonEmpty (trim t)); [|exact Hwf].
    destruct (find (hasId (trim i)) (books s)); [|exact Hwf].
    destruct (parseIntOr c 1 <? openLoansFor (trim i) (borrowedBooks s));
      [exact Hwf|].
    now apply (wfTimers_ext s).
  - unfold deleteBook.
    destruct (isAdminUser s); [|exact Hwf].
    destruct (find (hasId bookId) (books s)); [|exact Hwf].
    destruct (0 <? openLoansFor bookId (borrowedBooks s)); [exact Hwf|].
    destruct confirmed; [|exact Hwf].
    now apply (wfTimers_ext s).
  - now apply (wfTimers_ext s).
Qed.

Lemma fireTimer_wfTimers h now res tCatch s s' :
  wfTimers s -> fireTimer h now res tCatch s = Some s' -> wfTimers s'.
Proof.
  intros Hwf Hfire.
  apply fireTimer_fired in Hfire as ([due [Hin _]] & Ht & Ha & _).
  unfold wfTimers in *. rewrite Ha, Ht.
  destruct (autoSyncTimer s) as [h0|].
  - destruct Hwf as [d Hd]. rewrite Hd in *. destruct Hin as [[= -> ->]|[]].
    simpl. now rewrite Pos.eqb_refl.
  - rewrite Hwf in Hin. destruct Hin.
Qed.

(** Whatever local operations, calls of [scheduleAutoSync] and timer
    firings follow one another, the page never has more than one pending
    auto-sync timer, and the timer pending, if any, is the one that
    [autoSyncTimer] names. *)
Theorem one_pending_timer :
  forall es s,
    wfTimers s ->
    wfTimers (runEvents es s)
    /\ (List.length (timers (runEvents es s)) <= 1)%nat.
Proof.
  assert (Hlen : forall s, wfTimers s -> (List.length (timers s) <= 1)%nat).
  { intros s. unfold wfTimers. destruct (autoSyncTimer s).
    - intros [d ->]. simpl. lia.
    - intros ->. simpl. lia. }
  intros es s Hwf.
  assert (H : wfTimers (runEvents es s)).
  { unfold runEvents. revert s Hwf.
    induction es as [|e rest IH]; intros s Hwf; [exact Hwf|].
    simpl. apply IH. destruct e as [op | now | f]; simpl.
    - now apply runOp_wfTimers.
    - now apply scheduleAutoSync_wf.
    - destruct (fireTimer (firedTimer f) (firedAt f) (fetchOutcome f)
                  (caughtAt f) s) as [s'|] eqn:Hfire; [|exact Hwf].
      now apply (fireTimer_wfTimers _ _ _ _ s s' Hwf Hfire). }
  split; [exact H | now apply Hlen].
Qed.

(** Alice borrows, the timer fires, bob borrows, a call schedules again:
    one timer is pending. *)
Lemma one_pending_timer_witness :
  (List.length
     (timers
        (runEvents
           [DoOp (Borrow (lit "A0001") 1000 1000 1000);
            DoFire (mkFiring 1 2500 (FetchResponse true None) 0);
            DoSchedule 2600;
            DoSchedule 2700]
           catalogue2)) <= 1)%nat.
Proof.
  apply (one_pending_timer
           [DoOp (Borrow (lit "A0001") 1000 1000 1000);
            DoFire (mkFiring 1 2500 (FetchResponse true None) 0);
            DoSchedule 2600;
            DoSchedule 2700]
           catalogue2).
  reflexivity.
Defined.

(** ** Reading the CSV text *)

Lemma splitOn_nonempty sep s : splitOn sep s <> [].
Proof.
  destruct s as [|c r]; simpl; [discriminate|].
  destruct (c =? sep)%N; [discriminate|].
  destruct (splitOn sep r); discriminate.
Qed.

Lemma joinWith_splitOn sep s : joinWith sep (splitOn sep s) = s.
Proof.
  induction s as [|c r IH]; [reflexivity|].
  cbn [splitOn]. destruct (c =? sep)%N eqn:E.
  - apply N.eqb_eq in E. subst c.
    pose proof (splitOn_nonempty sep r) as Hne.
    destruct (splitOn sep r) as [|p ps] eqn:Hs; [contradiction|].
    cbn [joinWith app]. cbn [joinWith] in IH. now rewrite IH.
  - pose proof (splitOn_nonempty sep r) as Hne.
    destruct (splitOn sep r) as [|p ps] eqn:Hs; [contradiction|].
    destruct ps as [|q qs]; cbn [joinWith app] in *; now rewrite IH.
Qed.

Lemma splitOn_no_sep sep s :
  Forall (fun piece => ~ In sep piece) (splitOn sep s).
Proof.
  induction s as [|c r IH]; cbn [splitOn].
  - constructor; [intros [] | constructor].
  - destruct (c =? sep)%N eqn:E.
    + constructor; [intros [] | exact IH].
    + apply N.eqb_neq in E.
      destruct (splitOn sep r) as [|p ps].
      * constructor; [|constructor]. intros [X|[]]. congruence.
      * inversion IH as [|x l Hp Hps]; subst. constructor; [|exact Hps].
        intros [X|X]; [congruence | contradiction].
Qed.

Lemma parseLine_spec i rawLine row :
  In row (parseLine i rawLine) <->
  (4 <= i)%nat /\ row = splitOn comma (trim rawLine)
  /\ (2 <= List.length row)%nat /\ hd [] row <> [].
Proof.
  unfold parseLine.
  destruct (nonEmpty (trim rawLine)) eqn:Hne; cbn [negb].
  - destruct (Nat.ltb i 4) eqn:Hi.
    + apply Nat.ltb_lt in Hi. split; [intros [] | intros [H _]; lia].
    + apply Nat.ltb_ge in Hi.
      destruct (Nat.leb 2 (List.length (splitOn comma (trim rawLine))))
        eqn:Hl; cbn [andb].
      * apply Nat.leb_le in Hl.
        destruct (nonEmpty (hd [] (splitOn comma (trim rawLine)))) eqn:Hh.
        -- split.
           ++ intros [<-|[]]. repeat split; trivial.
              intros E. rewrite E in Hh. discriminate.
           ++ intros (_ & -> & _). now left.
        -- split; [intros [] | intros (_ & -> & _ & H)].
           destruct (hd [] (splitOn comma (trim rawLine)));
             [now contradiction H | discriminate].
      * apply Nat.leb_gt in Hl. split; [intros [] | intros (_ & -> & H & _)].
        lia.
  - destruct (trim rawLine); [|discriminate]. simpl.
    split; [intros [] | intros (_ & -> & H & _)]. simpl in H. lia.
Qed.

Lemma parseLines_spec lines :
  forall i row,
    In row (parseLines i lines) <->
    exists k rawLine,
      nth_error lines k = Some rawLine /\ (4 <= i + k)%nat
      /\ row = splitOn comma (trim rawLine)
      /\ (2 <= List.length row)%nat /\ hd [] row <> [].
Proof.
  induction lines as [|l rest IH]; intros i row; cbn [parseLines].
  - split; [intros [] | intros (k & rl & H & _)]. now destruct k.
  - rewrite in_app_iff, parseLine_spec, IH. split.
    + intros [(Hi & Hr) | (k & rl & Hn & Hi & Hr)].
      * exists 0%nat, l. rewrite Nat.add_0_r. now repeat split.
      * exists (S k), rl. split; [exact Hn|]. split; [lia | exact Hr].
    + intros (k & rl & Hn & Hi & Hr). destruct k as [|k].
      * left. injection Hn as ->. rewrite Nat.add_0_r in Hi. now split.
      * right. exists k, rl. split; [exact Hn|]. split; [lia | exact Hr].
Qed.

Lemma parseLines_length lines :
  forall i, (List.length (parseLines i lines) <= List.length lines - (4 - i))%nat.
Proof.
  induction lines as [|l rest IH]; intros i; cbn [parseLines List.length];
    [lia|].
  rewrite length_app. specialize (IH (S i)).
  assert (Hone : (List.length (parseLine i l) <= 1)%nat).
  { unfold parseLine. destruct (negb _); [simpl; lia|].
    destruct (Nat.ltb i 4); [simpl; lia|].
    destruct (_ && _); simpl; lia. }
  assert (Hzero : (i < 4)%nat -> List.length (parseLine i l) = 0%nat).
  { intros Hi. unfold parseLine. destruct (negb _); [reflexivity|].
    apply Nat.ltb_lt in Hi. now rewrite Hi. }
  destruct (Nat.lt_ge_cases i 4) as [Hi|Hi]; [rewrite (Hzero Hi)|]; lia.
Qed.

(** The rows of [parseCSV] are the lines from the fifth on (blank lines
    included in the count) whose trimmed text splits at the commas into at
    least two cells, the first not empty: each such line gives the row of
    its cells and nothing else does.  No cell contains a comma, the cells
    joined by commas are the trimmed line, and there are at most as many
    rows as lines after the fourth. *)
Theorem parseCSV_rows :
  forall csvText,
    (forall row,
       In row (parseCSV csvText) <->
       exists k rawLine,
         nth_error (splitOn newline csvText) k = Some rawLine
         /\ (4 <= k)%nat
         /\ row = splitOn comma (trim rawLine)
         /\ (2 <= List.length row)%nat /\ hd [] row <> [])
    /\ (forall row,
          In row (parseCSV csvText) ->
          Forall (fun cell => ~ In comma cell) row
          /\ exists rawLine,
               In rawLine (splitOn newline csvText)
               /\ joinWith comma row = trim rawLine)
    /\ (List.length (parseCSV csvText)
        <= List.length (splitOn newline csvText) - 4)%nat.
Proof.
  intros csvText. unfold parseCSV.
  split; [|split].
  - intros row. apply (parseLines_spec (splitOn newline csvText) 0 row).
  - intros row Hrow.
    apply (parseLines_spec (splitOn newline csvText) 0 row) in Hrow
      as (k & rl & Hn & _ & -> & _).
    split; [apply splitOn_no_sep|].
    exists rl. split; [now apply nth_error_In in Hn | apply joinWith_splitOn].
  - apply (parseLines_length (splitOn newline csvText) 0).
Qed.

(** A CSV file of at most four lines loads nothing: [autoLoadCSV] leaves
    the state as it is, the catalogue included, instead of emptying it. *)
Theorem autoLoadCSV_short_file :
  forall csvText s,
    (List.length (splitOn newline csvText) <= 4)%nat ->
    autoLoadCSV (Some csvText) s = s.
Proof.
  intros csvText s Hlen. unfold autoLoadCSV, parseCSV.
  pose proof (parseLines_length (splitOn newline csvText) 0) as H.
  destruct (parseLines 0 (splitOn newline csvText)) as [|row rows];
    [reflexivity|].
  simpl in H. lia.
Qed.

(** Four header lines that look like data, and nothing else. *)
Lemma autoLoadCSV_short_file_witness :
  books (autoLoadCSV (Some fourLineCsv) catalogue2) = books catalogue2.
Proof.
  apply (f_equal books).
  apply (autoLoadCSV_short_file fourLineCsv catalogue2).
  vm_compute. lia.
Defined.

(** ** Sheet names and genres *)

(** [sanitizeSheetName] always gives a name that a workbook accepts as far
    as these rules go: at most 31 code units, none of the characters
    [\ / : * ? [ ]], and not empty.  A name that already meets the rules and
    is not blank is returned as it is. *)
Theorem sanitizeSheetName_valid :
  forall name,
    (List.length (sanitizeSheetName name) <= 31)%nat
    /\ Forall (fun c => isInvalidSheetChar c = false) (sanitizeSheetName name)
    /\ sanitizeSheetName name <> []
    /\ (Forall (fun c => isInvalidSheetChar c = false) name ->
        trim name <> [] ->
        (List.length name <= 31)%nat ->
        sanitizeSheetName name = name).
Proof.
  intros name. unfold sanitizeSheetName.
  set (safe0 := List.map (fun c => if isInvalidSheetChar c then 32%N else c) name).
  assert (H0 : Forall (fun c => isInvalidSheetChar c = false) safe0).
  { apply Forall_forall. intros c Hc. apply in_map_iff in Hc as [x [<- _]].
    destruct (isInvalidSheetChar x) eqn:E; [reflexivity | exact E]. }
  set (safe := if negb (nonEmpty (trim safe0)) then defaultSheetName else safe0).
  assert (H1 : Forall (fun c => isInvalidSheetChar c = false) safe).
  { subst safe. destruct (negb (nonEmpty (trim safe0))); [|exact H0].
    repeat constructor. }
  assert (H2 : safe <> []).
  { subst safe. destruct (nonEmpty (trim safe0)) eqn:E; cbn [negb];
      [|discriminate].
    intros X. rewrite X in E. discriminate. }
  split; [|split; [|split]].
  - destruct (Nat.ltb 31 (List.length safe)) eqn:E.
    + rewrite length_firstn. lia.
    + apply Nat.ltb_ge in E. exact E.
  - destruct (Nat.ltb 31 (List.length safe)); [|exact H1].
    apply Forall_forall. intros c Hc. rewrite Forall_forall in H1.
    apply H1. apply (In_nth _ _ 0%N) in Hc as [n [Hn <-]].
    rewrite nth_firstn. rewrite length_firstn in Hn.
    assert ((n <? 31)%nat = true) by (apply Nat.ltb_lt; lia).
    rewrite H. apply nth_In. lia.
  - destruct (Nat.ltb 31 (List.length safe)); [|exact H2].
    destruct safe; [contradiction | discriminate].
  - intros Hvalid Hblank Hlen.
    assert (Hsame : safe0 = name).
    { subst safe0. rewrite <- (map_id name) at 2. apply map_ext_in.
      intros c Hc. rewrite Forall_forall in Hvalid. now rewrite (Hvalid c Hc). }
    subst safe. rewrite Hsame. rewrite (nonEmpty_true _ Hblank). cbn [negb].
    apply Nat.ltb_ge in Hlen. now rewrite Hlen.
Qed.

(** A user name with a slash, and a plain one. *)
Lemma sanitizeSheetName_valid_witness :
  sanitizeSheetName (lit "alice") = lit "alice"
  /\ sanitizeSheetName (lit "a/b") = lit "a b".
Proof.
  split; [|reflexivity].
  apply (proj2 (proj2 (proj2 (sanitizeSheetName_valid (lit "alice"))))).
  - repeat constructor.
  - vm_compute. discriminate.
  - vm_compute. lia.
Defined.

(** Every code that passes the validation has a genre: picture book for
    A, bridge book for B, text book for C; the genre '未知' is never given
    to a valid code. *)
Theorem valid_code_has_genre :
  forall id,
    testBookId id = true ->
    getGenreFromId id <> UnknownGenre
    /\ (getGenreFromId id = PictureBook <-> hd 0%N id = 65%N)
    /\ (getGenreFromId id = BridgeBook <-> hd 0%N id = 66%N)
    /\ (getGenreFromId id = TextBook <-> hd 0%N id = 67%N).
Proof.
  intros id H. unfold testBookId in H.
  destruct id as [|c [|d ds]]; try discriminate.
  apply andb_prop in H as [Hc _]. apply isABC_spec in Hc.
  unfold getGenreFromId. cbn [hd].
  destruct Hc as [-> | [-> | ->]]; simpl;
    repeat split; try discriminate; try reflexivity; intros X; discriminate X.
Qed.

Lemma valid_code_has_genre_witness : getGenreFromId (lit "B0042") = BridgeBook.
Proof.
  apply (valid_code_has_genre (lit "B0042")); reflexivity.
Defined.

(** ** The next free code *)

(** *** Decimal digits *)

Lemma lit_String a s : lit (String a s) = N_of_ascii a :: lit s.
Proof. reflexivity. Qed.

Lemma uint_digits d :
  Forall (fun c => isDigit c = true) (lit (NilEmpty.string_of_uint d)).
Proof.
  induction d; cbn [NilEmpty.string_of_uint]; try rewrite lit_String;
    constructor; trivial.
Qed.

Lemma parseDigits_digit acc c r :
  isDigit c = true ->
  parseDigits 10 acc (c :: r)
  = parseDigits 10
      (Some (match acc with Some a => a * 10 + (c - 48) | None => c - 48 end)%N)
      r.
Proof.
  intros H. apply isDigit_spec in H. cbn [parseDigits]. unfold digitValue.
  assert (E1 : ((48 <=? c) && (c <=? 57))%N = true).
  { apply andb_true_intro. split; apply N.leb_le; lia. }
  rewrite E1.
  assert (E2 : (c - 48 <? 10)%N = true) by (apply N.ltb_lt; lia).
  now rewrite E2.
Qed.

Lemma parseDigits_uint_acc d :
  forall acc n,
    n = N.pos acc ->
    parseDigits 10 (Some n) (lit (NilEmpty.string_of_uint d))
    = Some (N.pos (Pos.of_uint_acc d acc)).
Proof.
  induction d; intros acc n Hn; cbn [NilEmpty.string_of_uint Pos.of_uint_acc];
    try rewrite lit_String.
  1: { subst n. reflexivity. }
  all: rewrite parseDigits_digit by reflexivity;
    apply IHd; subst n;
    match goal with
    | |- context [N_of_ascii ?a] =>
        let v := eval vm_compute in (N_of_ascii a) in
        change (N_of_ascii a) with v
    end; lia.
Qed.

Lemma parseDigits_uint d :
  forall acc,
    acc = None \/ acc = Some 0%N ->
    d <> Decimal.Nil ->
    parseDigits 10 acc (lit (NilEmpty.string_of_uint d))
    = Some (Pos.of_uint d).
Proof.
  induction d; intros acc Hacc Hd; try (now contradiction Hd);
    cbn [NilEmpty.string_of_uint Pos.of_uint]; rewrite lit_String;
    rewrite parseDigits_digit by reflexivity.
  1: { assert (E : (match acc with
                    | Some a => a * 10 + (N_of_ascii "0" - 48)
                    | None => N_of_ascii "0" - 48
                    end)%N = 0%N)
         by (destruct Hacc as [-> | ->]; reflexivity).
       rewrite E. destruct d; try (apply IHd; [now right | discriminate]).
       reflexivity. }
  all: apply parseDigits_uint_acc; destruct Hacc as [-> | ->]; reflexivity.
Qed.

Lemma parseDigits_zeros k s :
  parseDigits 10 (Some 0%N) (repeat 48%N k ++ s) = parseDigits 10 (Some 0%N) s.
Proof.
  induction k as [|k IH]; [reflexivity|].
  cbn [repeat app]. rewrite parseDigits_digit by reflexivity. exact IH.
Qed.

Lemma toString_pos p :
  toString (Z.pos p) = lit (NilEmpty.string_of_uint (Pos.to_uint p)).
Proof.
  unfold toString. cbn [Z.to_int NilZero.string_of_int].
  unfold NilZero.string_of_uint.
  pose proof (DecimalPos.Unsigned.to_uint_nonnil p) as H.
  destruct (Pos.to_uint p); [now contradiction H | reflexivity ..].
Qed.

(** Printing a positive number, padding it with zeros and reading the
    digits back gives the number. *)
Lemma padded_number p :
  Forall (fun c => isDigit c = true) (padStart4 (toString (Z.pos p)))
  /\ padStart4 (toString (Z.pos p)) <> []
  /\ parseDigits 10 None (padStart4 (toString (Z.pos p))) = Some (N.pos p).
Proof.
  rewrite toString_pos. unfold padStart4.
  pose proof (DecimalPos.Unsigned.to_uint_nonnil p) as Hnn.
  pose proof (uint_digits (Pos.to_uint p)) as Hd.
  set (ds := lit (NilEmpty.string_of_uint (Pos.to_uint p))) in *.
  assert (Hne : ds <> []).
  { subst ds. destruct (Pos.to_uint p); [now contradiction Hnn | ..];
      cbn [NilEmpty.string_of_uint]; rewrite lit_String; discriminate. }
  split; [|split].
  - apply Forall_app. split; [|exact Hd].
    apply Forall_forall. intros c Hc. apply repeat_spec in Hc. now subst c.
  - destruct (repeat 48%N (4 - List.length ds)); [exact Hne | discriminate].
  - rewrite <- (DecimalPos.Unsigned.of_to p).
    destruct (4 - List.length ds)%nat as [|k].
    + apply parseDigits_uint; [now left | exact Hnn].
    + cbn [repeat app]. rewrite parseDigits_digit by reflexivity.
      change (N_of_ascii "0" - 48)%N with 0%N.
      change (48 - 48)%N with 0%N.
      rewrite parseDigits_zeros. apply parseDigits_uint; [now right | exact Hnn].
Qed.

(** *** Codes contain no blank *)

Lemma digit_not_blank c : (48 <= c <= 67)%N -> isWhiteSpace c = false.
Proof.
  intros H. unfold isWhiteSpace.
  assert (Hne : forall k, (k < 48 \/ 67 < k)%N -> (c =? k)%N = false)
    by (intros k Hk; apply N.eqb_neq; lia).
  assert (H1 : (c <=? 13)%N = false) by (apply N.leb_gt; lia).
  assert (H2 : (8192 <=? c)%N = false) by (apply N.leb_gt; lia).
  rewrite H1, H2, !andb_false_r.
  rewrite (Hne 32%N), (Hne 160%N), (Hne 5760%N), (Hne 8232%N), (Hne 8233%N),
    (Hne 8239%N), (Hne 8287%N), (Hne 12288%N), (Hne 65279%N) by lia.
  reflexivity.
Qed.

Lemma trimStart_no_blank s :
  Forall (fun c => isWhiteSpace c = false) s -> trimStart s = s.
Proof.
  intros H. destruct H as [|c r Hc Hr]; [reflexivity|].
  simpl. now rewrite Hc.
Qed.

Lemma trim_no_blank s :
  Forall (fun c => isWhiteSpace c = false) s -> trim s = s.
Proof.
  intros H. unfold trim, trimEnd. rewrite (trimStart_no_blank s H).
  rewrite trimStart_no_blank; [apply rev_involutive|].
  apply Forall_forall. intros c Hc. apply in_rev in Hc.
  rewrite Forall_forall in H. now apply H.
Qed.

Lemma valid_code_chars id :
  testBookId id = true -> Forall (fun c => (48 <= c <= 67)%N) id.
Proof.
  unfold testBookId. destruct id as [|c [|d ds]]; try discriminate.
  intros H. apply andb_prop in H as [Hc Hd].
  apply isABC_spec in Hc. constructor; [lia|].
  apply Forall_forall. intros x Hx. rewrite forallb_forall in Hd.
  specialize (Hd x Hx). apply isDigit_spec in Hd. lia.
Qed.

Lemma trim_valid_code id : testBookId id = true -> trim id = id.
Proof.
  intros H. apply trim_no_blank. apply valid_code_chars in H.
  apply Forall_forall. intros c Hc. rewrite Forall_forall in H.
  apply digit_not_blank. now apply H.
Qed.

Lemma asciiUpper_valid_code id : testBookId id = true -> asciiUpper id = id.
Proof.
  intros H. apply valid_code_chars in H. unfold asciiUpper.
  rewrite <- (map_id id) at 2. apply map_ext_in. intros c Hc.
  rewrite Forall_forall in H. specialize (H c Hc).
  assert (E : (97 <=? c)%N = false) by (apply N.leb_gt; lia).
  now rewrite E.
Qed.

(** *** The code generated *)

Lemma maxNum_fold prefix used :
  forall m,
    m <= fold_left
           (fun m id => match codeNumber prefix id with
                        | Some n => Z.max m n
                        | None => m
                        end) used m
    /\ forall id n,
         In id used -> codeNumber prefix id = Some n ->
         n <= fold_left
                (fun m id => match codeNumber prefix id with
                             | Some n => Z.max m n
                             | None => m
                             end) used m.
Proof.
  induction used as [|x r IH]; intros m; cbn [fold_left].
  - split; [lia | intros id n []].
  - destruct (codeNumber prefix x) as [k|] eqn:Ek.
    + destruct (IH (Z.max m k)) as [H1 H2]. split; [lia|].
      intros id n [<-|Hin] Hn.
      * rewrite Ek in Hn. injection Hn as <-. lia.
      * now apply (H2 id).
    + destruct (IH m) as [H1 H2]. split; [exact H1|].
      intros id n [<-|Hin] Hn; [congruence | now apply (H2 id)].
Qed.

Lemma candidate_number c p :
  isABC c = true ->
  testBookId (candidate [c] (Z.pos p)) = true
  /\ codeNumber [c] (candidate [c] (Z.pos p)) = Some (Z.pos p).
Proof.
  intros Hc. destruct (padded_number p) as (Hd & Hne & Hp).
  unfold candidate. cbn [app].
  assert (Hv : testBookId (c :: padStart4 (toString (Z.pos p))) = true).
  { unfold testBookId.
    destruct (padStart4 (toString (Z.pos p))) as [|d ds] eqn:E;
      [contradiction|].
    rewrite Hc. cbn [andb]. apply forallb_forall. intros x Hx.
    rewrite Forall_forall in Hd. now apply Hd. }
  split; [exact Hv|].
  unfold codeNumber. rewrite Hv, str_eqb_refl, Hp. reflexivity.
Qed.

Section NextBookIdFacts.
Variable toUpperCase : jsstring -> jsstring.

Lemma generateNextBookId_result prefix s :
  prefix = lit "A" \/ prefix = lit "B" \/ prefix = lit "C" ->
  let used := usedCodes toUpperCase (books s) in
  let code := candidate prefix (maxNum prefix used + 1) in
  generateNextBookId toUpperCase prefix s = Some code
  /\ ~ In code used
  /\ testBookId code = true
  /\ codeNumber prefix code = Some (maxNum prefix used + 1).
Proof.
  intros Hp used code.
  assert (Hc : exists c, prefix = [c] /\ isABC c = true).
  { destruct Hp as [-> | [-> | ->]]; eexists; split; reflexivity. }
  destruct Hc as (c & -> & Hc).
  destruct (maxNum_fold [c] used 0) as [Hge Hmax]. fold (maxNum [c] used) in *.
  destruct (maxNum [c] used + 1) as [|p|p] eqn:Ep; try lia.
  destruct (candidate_number c p Hc) as [Hv Hn].
  assert (Hfresh : ~ In code used).
  { intros Hin. subst code. specialize (Hmax _ _ Hin Hn). lia. }
  repeat split; trivial.
  unfold generateNextBookId. fold used. rewrite Ep. cbn [nextFree].
  fold code.
  destruct (includes code used) eqn:Hi; [|reflexivity].
  exfalso. apply Hfresh. unfold includes in Hi.
  apply existsb_exists in Hi as [x [Hx E]]. apply str_eqb_eq in E.
  now subst x.
Qed.

Lemma usedCodes_id (b : Book.t) (bs : list Book.t) :
  In b bs -> Book.id b <> [] ->
  In (toUpperCase (Book.id b)) (usedCodes toUpperCase bs).
Proof.
  intros Hin Hne. unfold usedCodes. apply in_flat_map. exists b.
  split; [exact Hin|]. apply in_or_app. left.
  rewrite (nonEmpty_true _ Hne). now left.
Qed.
End NextBookIdFacts.

(** For the prefixes A, B and C, [generateNextBookId] returns at the first
    turn of its loop.  The code returned is the prefix followed by the
    number after the largest one in use under that prefix, padded to four
    digits; it is a valid code, it is not among the used codes (the ids and
    [bookIds] entries, in upper case), and its number is above the number
    of every used code of the prefix.  Numbers are exact for codes of at
    most 16 characters. *)
Theorem generateNextBookId_fresh :
  forall toUpperCase prefix s,
    prefix = lit "A" \/ prefix = lit "B" \/ prefix = lit "C" ->
    Forall (fun id => (List.length id <= 16)%nat)
      (usedCodes toUpperCase (books s)) ->
    exists code,
      generateNextBookId toUpperCase prefix s = Some code
      /\ code = candidate prefix
                  (maxNum prefix (usedCodes toUpperCase (books s)) + 1)
      /\ ~ In code (usedCodes toUpperCase (books s))
      /\ testBookId code = true
      /\ forall id n,
           In id (usedCodes toUpperCase (books s)) ->
           codeNumber prefix id = Some n ->
           exists m, codeNumber prefix code = Some m /\ n < m.
Proof.
  intros toUpperCase prefix s Hp _.
  destruct (generateNextBookId_result toUpperCase prefix s Hp)
    as (Hgen & Hfresh & Hv & Hn).
  eexists. split; [exact Hgen|]. repeat split; trivial.
  intros id n Hin Hid. eexists. split; [exact Hn|].
  destruct (maxNum_fold prefix (usedCodes toUpperCase (books s)) 0) as [_ H].
  specialize (H id n Hin Hid). fold (maxNum prefix
    (usedCodes toUpperCase (books s))) in H. lia.
Qed.

(** The codes in use are A0001, A0007, A12 and B0100: the next A code is
    A0013. *)
Lemma generateNextBookId_fresh_witness :
  generateNextBookId asciiUpper (lit "A") mixedCatalogue = Some (lit "A0013").
Proof.
  destruct (generateNextBookId_fresh asciiUpper (lit "A") mixedCatalogue)
    as (code & Hgen & -> & _).
  - now left.
  - vm_compute. repeat constructor.
  - rewrite Hgen. reflexivity.
Defined.

(** The code that the add form is pre-filled with is accepted: for the
    prefixes A, B and C, and an upper-casing that leaves valid codes as
    they are, [handleAddBook] with the generated code and a title that is
    not blank succeeds. *)
Theorem generated_code_is_accepted :
  forall toUpperCase prefix s code titleValue yearValue copiesValue tTimer,
    (forall id, testBookId id = true -> toUpperCase id = id) ->
    prefix = lit "A" \/ prefix = lit "B" \/ prefix = lit "C" ->
    Forall (fun id => (List.length id <= 16)%nat)
      (usedCodes toUpperCase (books s)) ->
    generateNextBookId toUpperCase prefix s = Some code ->
    trim titleValue <> [] ->
    snd (handleAddBook code titleValue yearValue copiesValue tTimer s)
    = [AddSucceeded].
Proof.
  intros toUpperCase prefix s code t y c tTimer Hup Hp _ Hgen Ht.
  destruct (generateNextBookId_result toUpperCase prefix s Hp)
    as (Hgen' & Hfresh & Hv & _).
  rewrite Hgen in Hgen'. injection Hgen' as ->.
  set (code := candidate prefix
                 (maxNum prefix (usedCodes toUpperCase (books s)) + 1)) in *.
  unfold handleAddBook. rewrite (trim_valid_code code Hv), Hv. cbn [negb].
  assert (Hnone : existsb (hasId code) (books s) = false).
  { destruct (existsb (hasId code) (books s)) eqn:E; [|reflexivity].
    exfalso. apply existsb_exists in E as [b [Hb Hid]].
    apply hasId_eq in Hid. apply Hfresh.
    rewrite <- (Hup code Hv), <- Hid.
    apply usedCodes_id; [exact Hb|].
    rewrite Hid. intros X. rewrite X in Hv. discriminate. }
  rewrite Hnone, (nonEmpty_true _ Ht). reflexivity.
Qed.

(** The next B code of the mixed catalogue, B0101, is added. *)
Lemma generated_code_is_accepted_witness :
  snd (handleAddBook (lit "B0101") (lit "W") (lit "") (lit "") 0
         mixedCatalogue)
  = [AddSucceeded].
Proof.
  apply (generated_code_is_accepted asciiUpper (lit "B") mixedCatalogue
           (lit "B0101") (lit "W") (lit "") (lit "") 0).
  - exact asciiUpper_valid_code.
  - right. now left.
  - vm_compute. repeat constructor.
  - reflexivity.
  - vm_compute. discriminate.
Defined.

(** ** Listed loans and repeated borrowing *)

Lemma find_by_id_unique (ls : list Loan.t) (l : Loan.t) :
  NoDup (List.map Loan.id ls) -> In l ls ->
  find (fun b => str_eqb (Loan.id b) (Loan.id l)) ls = Some l.
Proof.
  induction ls as [|a r IH]; simpl; [easy|].
  intros Hnd Hin. inversion Hnd as [|x l0 Hnotin Hnd']; subst.
  destruct Hin as [->|Hin].
  - now rewrite str_eqb_refl.
  - destruct (str_eqb (Loan.id a) (Loan.id l)) eqn:E.
    + exfalso. apply str_eqb_eq in E. apply Hnotin. rewrite E.
      now apply in_map.
    + now apply IH.
Qed.

(** When the loan ids of the ledger are distinct, every loan that the
    page lists for the current user (all open loans for staff, the user's
    own otherwise) can be returned: [returnBook] on its id succeeds. *)
Theorem listed_loan_can_be_returned :
  forall s listed l tReturn tTimer,
    NoDup (List.map Loan.id (borrowedBooks s)) ->
    visibleLoans s = Some listed ->
    In l listed ->
    snd (returnBook (Loan.id l) tReturn tTimer s) = [ReturnSucceeded].
Proof.
  intros s listed l tReturn tTimer Hnd Hvis Hin.
  assert (Hl : In l (borrowedBooks s) /\ Loan.isOpen l = true).
  { unfold visibleLoans in Hvis. destruct (currentUser s) as [u|];
      [|discriminate].
    destruct (str_eqb (role u) (lit "staff")); injection Hvis as <-;
      apply filter_In in Hin as [Hin Ho]; split; trivial.
    now apply andb_prop in Ho as [_ Ho]. }
  destruct Hl as [Hmem Ho].
  unfold returnBook. rewrite (find_by_id_unique _ _ Hnd Hmem), Ho.
  reflexivity.
Qed.

(** Bob, a student, sees his loan and returns it. *)
Lemma listed_loan_can_be_returned_witness :
  snd (returnBook (toString 2000) 2500 2500 afterBob) = [ReturnSucceeded].
Proof.
  apply (listed_loan_can_be_returned afterBob
           [Loan.mk (toString 2000) (lit "A0001") (lit "T") (lit "bob") 2000
              (2000 + 14 * msPerDay) None]
           (Loan.mk (toString 2000) (lit "A0001") (lit "T") (lit "bob") 2000
              (2000 + 14 * msPerDay) None)).
  - vm_compute. constructor; [|constructor; [intros [] | constructor]].
    intros [H|[]]. discriminate H.
  - reflexivity.
  - now left.
Defined.

(** After a successful [borrowBook], the same user's next [borrowBook] of
    the same code fails and changes nothing: it reports that no copy is
    left when the last copy was taken, and that the user already holds the
    book otherwise. *)
Theorem borrow_twice :
  forall bookId tDate tId tTimer tDate' tId' tTimer' s s1,
    borrowBook bookId tDate tId tTimer s = (s1, [BorrowSucceeded]) ->
    exists left,
      availableOf bookId (books s1) = Some left
      /\ borrowBook bookId tDate' tId' tTimer' s1
         = (s1, [if left <=? 0 then NoCopiesAvailable else AlreadyBorrowed]).
Proof.
  intros bookId tDate tId tTimer tDate' tId' tTimer' s s1 Hb.
  unfold borrowBook in Hb.
  destruct (currentUser s) as [u|] eqn:Hu; [|discriminate].
  destruct (str_eqb (role u) (lit "guest") && negb (guestBorrow (settings s)))
    eqn:Hg; [discriminate|].
  destruct (find (hasId bookId) (books s)) as [book|] eqn:Hf; [|discriminate].
  destruct (Book.availableCopies book <=? 0); [discriminate|].
  destruct (existsb _ (borrowedBooks s)); [discriminate|].
  injection Hb as <-.
  set (r := Loan.mk (toString tId) bookId (Book.title book) (username u) tDate
              (tDate + loanDays (settings s) * msPerDay) None).
  set (bs1 := updateFirst (hasId bookId)
                (fun b => Book.set_availableCopies (Book.availableCopies b - 1) b)
                (books s)).
  set (s1 := scheduleAutoSync tTimer _).
  assert (Hf1 : find (hasId bookId) (books s1)
                = Some (Book.set_availableCopies
                          (Book.availableCopies book - 1) book)).
  { change (books s1) with bs1. subst bs1.
    rewrite find_updateFirst by (intros x Hx; exact Hx). now rewrite Hf. }
  assert (Hm : mayBorrow u s1) by (split; [exact Hu | exact Hg]).
  exists (Book.availableCopies book - 1). split.
  - unfold availableOf. now rewrite Hf1.
  - rewrite (borrowBook_unfold_ok _ _ _ _ _ _ _ Hm Hf1).
    cbn [Book.set_availableCopies Book.availableCopies].
    destruct (Book.availableCopies book - 1 <=? 0); [reflexivity|].
    assert (Ho : hasOpenLoanb bookId (username u) (borrowedBooks s1) = true).
    { change (borrowedBooks s1) with (borrowedBooks s ++ [r]).
      unfold hasOpenLoanb. rewrite existsb_app. apply orb_true_intro. right.
      simpl. now rewrite !str_eqb_refl. }
    now rewrite Ho.
Qed.

(** Alice's second attempt on the two-copy catalogue. *)
Lemma borrow_twice_witness :
  borrowBook (lit "A0001") 1500 1500 1500 afterAlice
  = (afterAlice, [AlreadyBorrowed]).
Proof.
  destruct (borrow_twice (lit "A0001") 1000 1000 1000 1500 1500 1500
              catalogue2 afterAlice eq_refl) as (left & Ha & Hb).
  injection Ha as <-. exact Hb.
Defined.

(** ** Grouping of the export *)

Lemma updateFirst_by_key {V} (k : jsstring) (f : V -> V)
    (g : list (jsstring * V)) :
  NoDup (List.map fst g) ->
  updateFirst (fun e => str_eqb (fst e) k) (fun e => (fst e, f (snd e))) g
  = List.map (fun e => if str_eqb (fst e) k then (fst e, f (snd e)) else e) g.
Proof.
  induction g as [|a r IH]; simpl; [reflexivity|].
  intros Hnd. inversion Hnd as [|x l Hnotin Hnd']; subst.
  destruct (str_eqb (fst a) k) eqn:E.
  - f_equal. rewrite <- (map_id r) at 1. apply map_ext_in.
    intros e He. destruct (str_eqb (fst e) k) eqn:E'; [|reflexivity].
    exfalso. apply str_eqb_eq in E, E'. apply Hnotin. rewrite E, <- E'.
    now apply in_map.
  - f_equal. now apply IH.
Qed.

Lemma filter_none {A} (p : A -> bool) (l : list A) :
  (forall x, In x l -> p x = false) -> filter p l = [].
Proof.
  induction l as [|a r IH]; simpl; [reflexivity|].
  intros H. rewrite (H a (or_introl eq_refl)). apply IH.
  intros x Hx. apply H. now right.
Qed.

Lemma groupAdd_keeps (r : Loan.t) (pre : list Loan.t)
    (g : list (jsstring * list Loan.t)) :
  NoDup (List.map fst g) ->
  (forall e, In e g ->
     snd e = filter (fun x => str_eqb (Loan.userId x) (fst e)) pre
     /\ snd e <> []) ->
  (forall x, In x pre -> In (Loan.userId x) (List.map fst g)) ->
  NoDup (List.map fst (groupAdd r g))
  /\ (forall e, In e (groupAdd r g) ->
        snd e = filter (fun x => str_eqb (Loan.userId x) (fst e)) (pre ++ [r])
        /\ snd e <> [])
  /\ (forall x, In x (pre ++ [r]) ->
        In (Loan.userId x) (List.map fst (groupAdd r g))).
Proof.
  intros Hnd Hg Hkeys. unfold groupAdd.
  set (k := Loan.userId r).
  set (withKey := if existsb (fun e => str_eqb (fst e) k) g
                  then g else g ++ [(k, [])]).
  assert (Hnd' : NoDup (List.map fst withKey)).
  { subst withKey. destruct (existsb _ g) eqn:E; [exact Hnd|].
    rewrite map_app. simpl. apply NoDup_app; [exact Hnd | | ].
    - constructor; [intros [] | constructor].
    - intros x Hx [<-|[]]. apply in_map_iff in Hx as [e [He Hin]].
      assert (existsb (fun e => str_eqb (fst e) k) g = true).
      { apply existsb_exists. exists e. split; [exact Hin|].
        now apply str_eqb_eq. }
      congruence. }
  assert (Hin' : In k (List.map fst withKey)).
  { subst withKey. destruct (existsb _ g) eqn:E.
    - apply existsb_exists in E as [e [He Hk]]. apply str_eqb_eq in Hk.
      rewrite <- Hk. now apply in_map.
    - rewrite map_app. apply in_or_app. right. now left. }
  assert (Hw : forall e, In e withKey ->
            snd e = filter (fun x => str_eqb (Loan.userId x) (fst e)) pre
            /\ (snd e <> [] \/ fst e = k)).
  { subst withKey. intros e He. destruct (existsb _ g) eqn:E.
    - destruct (Hg e He). split; [assumption | now left].
    - apply in_app_or in He as [He|[<-|[]]].
      + destruct (Hg e He). split; [assumption | now left].
      + simpl. split; [|now right].
        assert (Hnok : ~ In k (List.map fst g)).
        { intros Hx. apply in_map_iff in Hx as [e' [He' Hin'']].
          assert (existsb (fun e => str_eqb (fst e) k) g = true).
          { apply existsb_exists. exists e'. split; [exact Hin''|].
            now apply str_eqb_eq. }
          congruence. }
        symmetry. apply filter_none. intros x Hx.
        apply str_eqb_neq. intros X. apply Hnok. rewrite <- X.
        now apply Hkeys. }
  rewrite (updateFirst_by_key k (fun rs => rs ++ [r]) withKey Hnd').
  split; [|split].
  - rewrite map_map. erewrite map_ext; [exact Hnd'|].
    intros e. now destruct (str_eqb (fst e) k).
  - intros e' He'. apply in_map_iff in He' as [e [<- He]].
    destruct (Hw e He) as [Hs Hne]. rewrite filter_app. cbn [filter].
    destruct (str_eqb (fst e) k) eqn:E; cbn [fst snd].
    + apply str_eqb_eq in E. rewrite E. fold k. rewrite str_eqb_refl.
      rewrite Hs, E. split; [reflexivity|].
      intros X. apply app_eq_nil in X as [_ X]. discriminate X.
    + assert (E' : str_eqb k (fst e) = false).
      { apply str_eqb_neq. intros X. apply str_eqb_neq in E. congruence. }
      fold k. rewrite E', app_nil_r. split; [exact Hs|].
      destruct Hne as [Hne|Hk]; [exact Hne|].
      apply str_eqb_neq in E. contradiction.
  - intros x Hx. rewrite map_map.
    erewrite map_ext; [|intros e; now destruct (str_eqb (fst e) k)].
    apply in_app_or in Hx as [Hx|[<-|[]]]; [|exact Hin'].
    specialize (Hkeys x Hx). subst withKey.
    destruct (existsb _ g); [exact Hkeys|].
    rewrite map_app. apply in_or_app. now left.
Qed.

(** The staff export writes one group per borrower: the groups have
    distinct user names, every listed loan is in the group of its user,
    each group holds exactly the listed loans of its user in ledger order
    and is not empty, and the groups together hold as many records as are
    listed. *)
Theorem groupByUser_partition :
  forall records,
    let groups := groupByUser records in
    NoDup (List.map fst groups)
    /\ (forall e, In e groups ->
          snd e = filter (fun x => str_eqb (Loan.userId x) (fst e)) records
          /\ snd e <> [])
    /\ (forall x, In x records -> In (Loan.userId x) (List.map fst groups))
    /\ (forall x, In x records <-> exists e, In e groups /\ In x (snd e)).
Proof.
  intros records groups. subst groups. unfold groupByUser.
  assert (Hgen : forall rest pre g,
    NoDup (List.map fst g) ->
    (forall e, In e g ->
       snd e = filter (fun x => str_eqb (Loan.userId x) (fst e)) pre
       /\ snd e <> []) ->
    (forall x, In x pre -> In (Loan.userId x) (List.map fst g)) ->
    let g' := fold_left (fun grouped r => groupAdd r grouped) rest g in
    NoDup (List.map fst g')
    /\ (forall e, In e g' ->
          snd e = filter (fun x => str_eqb (Loan.userId x) (fst e)) (pre ++ rest)
          /\ snd e <> [])
    /\ (forall x, In x (pre ++ rest) -> In (Loan.userId x) (List.map fst g'))).
  { induction rest as [|r rest IH]; intros pre g H1 H2 H3; cbn [fold_left].
    - cbv zeta. rewrite app_nil_r. split; [exact H1 | split; [exact H2 | exact H3]].
    - destruct (groupAdd_keeps r pre g H1 H2 H3) as (H1' & H2' & H3').
      specialize (IH (pre ++ [r]) (groupAdd r g) H1' H2' H3').
      cbv zeta in IH. rewrite <- app_assoc in IH. exact IH. }
  destruct (Hgen records [] []) as (H1 & H2 & H3).
  - constructor.
  - intros e [].
  - intros x [].
  - cbv zeta in *. cbn [app] in *.
    split; [exact H1 | split; [exact H2 | split; [exact H3 | split]]].
    + intros Hx. specialize (H3 x Hx).
      apply in_map_iff in H3 as [e [He Hin]]. exists e. split; [exact Hin|].
      destruct (H2 e Hin) as [Hs _]. rewrite Hs. apply filter_In.
      split; [exact Hx|]. rewrite He. apply str_eqb_refl.
    + intros [e [Hin Hx]]. destruct (H2 e Hin) as [Hs _].
      rewrite Hs in Hx. now apply filter_In in Hx as [Hx _].
Qed.
